(** * GA-3-09: the heading parser and the HTML renderer

    A shallow embedding of [clean_and_parse_qwen_output] and [generate_html]
    of [GA-3-09.py], with [parse_input] and [main] around them, and the
    properties of the program that the specification states.

    Python strings are sequences of Unicode code points; they are modelled
    as lists of code points ([N]).  The string methods the program calls
    ([strip], [split], [startswith], [lower], [join], [replace], slicing)
    are written out in [PyStr]. *)

From Stdlib Require Import NArith List String Ascii Bool Arith Lia.
From Stdlib Require Import DecimalString.
Import ListNotations.

Local Open Scope N_scope.
Local Open Scope list_scope.

(* ================================================================== *)
(** * Python strings *)
(* ================================================================== *)

Module PyStr.

(** A [str] is the list of its code points. *)
Definition str : Type := list N.

(** ** Literals

    Source literals are written as UTF-8 text and decoded to code points. *)

Fixpoint utf8_decode (bs : list N) : str :=
  match bs with
  | [] => []
  | b0 :: r0 =>
      if b0 <? 0x80 then b0 :: utf8_decode r0
      else if b0 <? 0xE0 then
        match r0 with
        | b1 :: r1 => ((b0 - 0xC0) * 64 + (b1 - 0x80)) :: utf8_decode r1
        | _ => []
        end
      else if b0 <? 0xF0 then
        match r0 with
        | b1 :: b2 :: r2 =>
            ((b0 - 0xE0) * 4096 + (b1 - 0x80) * 64 + (b2 - 0x80))
              :: utf8_decode r2
        | _ => []
        end
      else
        match r0 with
        | b1 :: b2 :: b3 :: r3 =>
            ((b0 - 0xF0) * 262144 + (b1 - 0x80) * 4096
             + (b2 - 0x80) * 64 + (b3 - 0x80)) :: utf8_decode r3
        | _ => []
        end
  end.

Definition lit (s : string) : str :=
  utf8_decode (map N_of_ascii (list_ascii_of_string s)).

(** ** Encoding ([encoding='utf-8'])

    A lone surrogate or a value above U+10FFFF has no UTF-8 form; Python
    raises [UnicodeEncodeError] there, the model returns [None]. *)

Definition utf8_encode_cp (c : N) : option (list N) :=
  if c <? 0x80 then Some [c]
  else if c <? 0x800 then Some [0xC0 + c / 64; 0x80 + c mod 64]
  else if c <? 0x10000 then
    if (0xD800 <=? c) && (c <=? 0xDFFF) then None
    else Some [0xE0 + c / 4096; 0x80 + (c / 64) mod 64; 0x80 + c mod 64]
  else if c <? 0x110000 then
    Some [0xF0 + c / 262144; 0x80 + (c / 4096) mod 64;
          0x80 + (c / 64) mod 64; 0x80 + c mod 64]
  else None.

Fixpoint utf8_encode (s : str) : option (list N) :=
  match s with
  | [] => Some []
  | c :: s' =>
      match utf8_encode_cp c, utf8_encode s' with
      | Some b, Some bs => Some (b ++ bs)
      | _, _ => None
      end
  end.

(** ** Truthiness: [if s], [if not s] *)

Definition truthy {A : Type} (l : list A) : bool :=
  match l with [] => false | _ :: _ => true end.

(** ** [str.isspace] on one code point (the set [str.strip()] removes) *)

Definition isspace (c : N) : bool :=
  ((0x09 <=? c) && (c <=? 0x0D))
  || ((0x1C <=? c) && (c <=? 0x20))
  || (c =? 0x85) || (c =? 0xA0) || (c =? 0x1680)
  || ((0x2000 <=? c) && (c <=? 0x200A))
  || (c =? 0x2028) || (c =? 0x2029) || (c =? 0x202F)
  || (c =? 0x205F) || (c =? 0x3000).

(** ** [s.lstrip()], [s.rstrip()], [s.strip()] *)

Fixpoint lstrip (s : str) : str :=
  match s with
  | [] => []
  | c :: s' => if isspace c then lstrip s' else s
  end.

Definition rstrip (s : str) : str := rev (lstrip (rev s)).

Definition strip (s : str) : str := rstrip (lstrip s).

(** ** [s.split('\n')] *)

Definition LF : N := 10.

Fixpoint split_nl (s : str) : list str :=
  match s with
  | [] => [[]]
  | c :: s' =>
      if c =? LF then [] :: split_nl s'
      else match split_nl s' with
           | l :: ls => (c :: l) :: ls
           | [] => [[c]]
           end
  end.

(** ** [s.startswith(prefix)] *)

Fixpoint startswith (s prefix : str) : bool :=
  match prefix, s with
  | [], _ => true
  | _ :: _, [] => false
  | a :: prefix', b :: s' => (a =? b) && startswith s' prefix'
  end.

(** ** [sep.join(parts)] *)

Fixpoint join (sep : str) (parts : list str) : str :=
  match parts with
  | [] => []
  | [x] => x
  | x :: rest => x ++ sep ++ join sep rest
  end.

(** ** [s.replace(old, new, 1)]: the leftmost occurrence, wherever it is *)

Fixpoint replace1 (old new s : str) : str :=
  if startswith s old then new ++ skipn (List.length old) s
  else match s with
       | [] => []
       | c :: s' => c :: replace1 old new s'
       end.

(** ** [s.lower()]

    The case mapping is tabulated for Basic Latin, Latin-1, U+0130 (whose
    lower case is two code points) and the Cyrillic blocks U+0400..U+052F;
    a code point outside these is left as it is here.  The only use in the
    program is the test [header.lower().startswith("вывод")]: the only code
    points whose lower case holds one of в, ы, о, д are these letters and
    their capitals, all tabulated, so the test is not affected. *)

Definition lower_cp (c : N) : list N :=
  if (0x41 <=? c) && (c <=? 0x5A) then [c + 0x20]
  else if (0xC0 <=? c) && (c <=? 0xDE) && negb (c =? 0xD7) then [c + 0x20]
  else if c =? 0x130 then [0x69; 0x307]
  else if (0x400 <=? c) && (c <=? 0x40F) then [c + 0x50]
  else if (0x410 <=? c) && (c <=? 0x42F) then [c + 0x20]
  else if (0x460 <=? c) && (c <=? 0x481) && N.even c then [c + 1]
  else if (0x48A <=? c) && (c <=? 0x4BF) && N.even c then [c + 1]
  else if c =? 0x4C0 then [0x4CF]
  else if (0x4C1 <=? c) && (c <=? 0x4CE) && N.odd c then [c + 1]
  else if (0x4D0 <=? c) && (c <=? 0x52F) && N.even c then [c + 1]
  else [c].

Definition lower (s : str) : str := flat_map lower_cp s.

(** ** [needle in s] *)

Fixpoint contains (s needle : str) : bool :=
  startswith s needle
  || match s with
     | [] => false
     | _ :: s' => contains s' needle
     end.

End PyStr.

Import PyStr.

(* ================================================================== *)
(** * Exceptions *)
(* ================================================================== *)

(** The exceptions the modelled code can meet: [next] on an exhausted
    generator; [write_text] and [print] on text their encoding cannot
    encode; [write_text] and [print] when the operating system refuses
    (a missing directory, a directory in place of the file, no permission,
    a full disk, a closed console). *)
Inductive exn : Type :=
  | StopIteration
  | UnicodeEncodeError
  | OSError.

Definition exn_eqb (a b : exn) : bool :=
  match a, b with
  | StopIteration, StopIteration => true
  | UnicodeEncodeError, UnicodeEncodeError => true
  | OSError, OSError => true
  | _, _ => false
  end.

(** A computation returns a value or raises. *)
Inductive result (A : Type) : Type :=
  | Return (a : A)
  | Raise (e : exn).
Arguments Return {A} a.
Arguments Raise {A} e.

Definition bind {A B : Type} (m : result A) (k : A -> result B) : result B :=
  match m with
  | Return a => k a
  | Raise e => Raise e
  end.

(** [try: m  except e: handler] *)
Definition try_except {A : Type} (m : result A) (e : exn) (handler : result A)
  : result A :=
  match m with
  | Return a => Return a
  | Raise e' => if exn_eqb e e' then handler else Raise e'
  end.

Notation "x <- m ;; k" := (bind m (fun x => k))
  (at level 61, m at next level, right associativity).

(* ================================================================== *)
(** * Data model *)
(* ================================================================== *)

(** One entry of [parsed['sections']]: [{'h2': ..., 'p': ...}]. *)
Record section_dict : Type := mk_section {
  h2 : str;
  p : str
}.

(** The dictionary [parsed]. *)
Record parsed_dict : Type := mk_parsed {
  title : str;
  sections : list section_dict;
  conclusion : str
}.

(** The local variables of the parsing loop. [current_h2] starts as
    [None]; [None] and the empty string are both false in a condition. *)
Record loop_state : Type := mk_state {
  parsed : parsed_dict;
  current_h2 : option str;
  current_p_lines : list str;
  in_conclusion : bool
}.

Definition h2_truthy (o : option str) : bool :=
  match o with
  | Some s => truthy s
  | None => false
  end.

Definition h2_text (o : option str) : str :=
  match o with
  | Some s => s
  | None => []
  end.

(* ================================================================== *)
(** * clean_and_parse_qwen_output *)
(* ================================================================== *)

Definition HASH : str := lit "#".
Definition SPACE : str := lit " ".
Definition VYVOD_LOWER : str := lit "вывод".
Definition VYVOD : str := lit "Вывод".

(** [next(i for i, line in enumerate(lines) if line.strip().startswith('#'))],
    counting from [i]. *)
Fixpoint next_hash (i : nat) (lines : list str) : result nat :=
  match lines with
  | [] => Raise StopIteration
  | line :: rest =>
      if startswith (strip line) HASH then Return i
      else next_hash (S i) rest
  end.

(** [if current_h2 and current_p_lines:] *)
Definition block_ready (st : loop_state) : bool :=
  h2_truthy (current_h2 st) && truthy (current_p_lines st).

(** The block saved under that condition: into [conclusion] or appended to
    [sections]. *)
Definition save_block (st : loop_state) : parsed_dict :=
  let d := parsed st in
  if block_ready st then
    if in_conclusion st then
      mk_parsed (title d) (sections d)
                (strip (join SPACE (current_p_lines st)))
    else
      mk_parsed (title d)
                (sections d ++
                   [mk_section (h2_text (current_h2 st))
                               (strip (join SPACE (current_p_lines st)))])
                (conclusion d)
  else d.

(** One iteration of [for line in lines]. *)
Definition loop_body (st : loop_state) (line0 : str) : loop_state :=
  let line := strip line0 in
  if negb (truthy line) then st
  else if startswith line HASH then
    let d := save_block st in
    let p_lines := if block_ready st then [] else current_p_lines st in
    let header := strip (skipn 1 line) in
    if negb (truthy (title d)) then
      mk_state (mk_parsed header (sections d) (conclusion d))
               (current_h2 st) p_lines (in_conclusion st)
    else if startswith (lower header) VYVOD_LOWER then
      mk_state d (Some VYVOD) p_lines true
    else
      mk_state d (Some header) p_lines false
  else if h2_truthy (current_h2 st) then
    mk_state (parsed st) (current_h2 st) (current_p_lines st ++ [line])
             (in_conclusion st)
  else st.

Definition empty_parsed : parsed_dict := mk_parsed [] [] [].

Definition init_state : loop_state := mk_state empty_parsed None [] false.

Definition run (st : loop_state) (lines : list str) : loop_state :=
  fold_left loop_body lines st.

Definition clean_and_parse_qwen_output (raw_text : str) : result parsed_dict :=
  let lines := split_nl (strip raw_text) in
  lines <- try_except
             (first_hash <- next_hash 0 lines ;;
              Return (skipn first_hash lines))
             StopIteration
             (Return []) ;;
  Return (save_block (run init_state lines)).

(* ================================================================== *)
(** * generate_html *)
(* ================================================================== *)

Definition NL : str := [LF].
Definition DQ : str := [34].

(** The f-string that opens [html], up to and including the [<h1>] line. *)
Definition html_shell (title : str) : str :=
  lit "<!DOCTYPE html>" ++ NL ++
  lit "<html lang=" ++ DQ ++ lit "ru" ++ DQ ++ lit ">" ++ NL ++
  lit "<head>" ++ NL ++
  lit "    <meta charset=" ++ DQ ++ lit "UTF-8" ++ DQ ++ lit ">" ++ NL ++
  lit "    <meta name=" ++ DQ ++ lit "viewport" ++ DQ ++ lit " content=" ++ DQ
    ++ lit "width=device-width, initial-scale=1.0" ++ DQ ++ lit ">" ++ NL ++
  lit "    <title>" ++ title ++ lit "</title>" ++ NL ++
  lit "    <style>" ++ NL ++
  lit "        body { font-family: 'Segoe UI', sans-serif; line-height: 1.7; max-width: 800px; margin: 40px auto; padding: 20px; background: #f9f9fb; color: #333; }" ++ NL ++
  lit "        h1 { color: #2c3e50; border-bottom: 3px solid #3498db; padding-bottom: 10px; }" ++ NL ++
  lit "        h2 { color: #2980b9; margin-top: 30px; }" ++ NL ++
  lit "        p { margin: 15px 0; text-align: justify; }" ++ NL ++
  lit "        .conclusion { background: #ecf0f1; padding: 20px; border-left: 5px solid #3498db; border-radius: 5px; }" ++ NL ++
  lit "    </style>" ++ NL ++
  lit "</head>" ++ NL ++
  lit "<body>" ++ NL ++
  lit "    <h1>" ++ title ++ lit "</h1>" ++ NL.

(** One iteration of [for section in parsed['sections']]. *)
Definition html_section (html : str) (section : section_dict) : str :=
  html ++ (lit "    <h2>" ++ h2 section ++ lit "</h2>" ++ NL)
       ++ (lit "    <p>" ++ p section ++ lit "</p>" ++ NL).

(** [parsed['conclusion'].replace("вывод:", "", 1).strip()] *)
Definition conclusion_text (conclusion : str) : str :=
  strip (replace1 (lit "вывод:") [] conclusion).

(** The body of [if parsed['conclusion']:]. *)
Definition html_conclusion (html : str) (conclusion : str) : str :=
  if truthy conclusion then
    html ++ (lit "    <div class='conclusion'>" ++ NL)
         ++ (lit "        <h2>Вывод</h2>" ++ NL)
         ++ (lit "        <p>" ++ conclusion_text conclusion ++ lit "</p>" ++ NL)
         ++ (lit "    </div>" ++ NL)
  else html.

Definition html_tail : str := NL ++ lit "</body>" ++ NL ++ lit "</html>".

(** The text [html] at the moment it is written. *)
Definition html_text (d : parsed_dict) : str :=
  let html := html_shell (title d) in
  let html := fold_left html_section (sections d) html in
  let html := html_conclusion html (conclusion d) in
  html ++ html_tail.

(** Text that has a UTF-8 form: every code point is a Unicode scalar
    value. *)
Definition is_scalar (c : N) : bool :=
  (c <? 0xD800) || ((0xDFFF <? c) && (c <? 0x110000)).

Definition valid_text (s : str) : bool := forallb is_scalar s.

Definition valid_section (s : section_dict) : bool :=
  valid_text (h2 s) && valid_text (p s).

Definition valid_doc (d : parsed_dict) : bool :=
  valid_text (title d) && forallb valid_section (sections d)
  && valid_text (conclusion d).

(** A path is the text given on the command line.  Which file it names is
    decided by the operating system ([pathlib] normalises the text, the
    current directory and links resolve it): two path texts can name one
    file.  Files are therefore kept under the name the path resolves to. *)
Definition path : Type := str.
Definition file_name : Type := str.
Definition filesystem : Type := file_name -> option (list N).

Definition file_eqb (a b : file_name) : bool :=
  if list_eq_dec N.eq_dec a b then true else false.

Definition write_bytes (fs : filesystem) (f : file_name) (data : list N)
  : filesystem :=
  fun g => if file_eqb f g then Some data else fs g.

Definition no_files : filesystem := fun _ => None.

(** How a write or a [print] can fail. *)
Inductive io_error : Type :=
  | EncodeFailure
  | OsFailure.

Definition exn_of (e : io_error) : exn :=
  match e with
  | EncodeFailure => UnicodeEncodeError
  | OsFailure => OSError
  end.

(** What the program does not decide: the operating system and the
    console it runs on. *)
Record os_env : Type := mk_env {
  (** the file a path text names *)
  resolve : path -> file_name;
  (** whether [open(path, 'w')] raises [OSError] *)
  open_fails : filesystem -> path -> bool;
  (** whether storing the bytes raises [OSError], and what is then left in
      the file *)
  store_fails : filesystem -> path -> list N -> option (list N);
  (** [os.linesep]: what a line feed is written as in text mode *)
  os_linesep : str;
  (** whether [print(text)] raises, and what *)
  print_fails : str -> option io_error;
  (** [str(output_path)] as [pathlib] prints a path *)
  path_repr : path -> str
}.

(** The text as text mode writes it: every line feed as [os.linesep]. *)
Definition os_text (env : os_env) (text : str) : str :=
  flat_map (fun c => if c =? LF then os_linesep env else [c]) text.

(** A write ends with the file system changed, or raises and leaves the
    file system as it is at that moment. *)
Inductive write_result : Type :=
  | Written (fs : filesystem)
  | WriteError (e : exn) (fs : filesystem).

(** [output_path.write_text(html, encoding='utf-8')]: the file is opened
    for writing, which empties it; the whole text is encoded; the bytes are
    stored.  Each step can raise. *)
Definition write_text (env : os_env) (fs : filesystem) (f : path) (text : str)
  : write_result :=
  if open_fails env fs f then WriteError OSError fs
  else
    match utf8_encode (os_text env text) with
    | None => WriteError UnicodeEncodeError (write_bytes fs (resolve env f) [])
    | Some data =>
        match store_fails env fs f data with
        | Some part => WriteError OSError (write_bytes fs (resolve env f) part)
        | None => Written (write_bytes fs (resolve env f) data)
        end
    end.

(* ================================================================== *)
(** * The parser read block by block *)
(* ================================================================== *)

(** The three kinds of line the loop tells apart. *)
Definition is_blank (line0 : str) : bool := negb (truthy (strip line0)).
Definition is_marker (line0 : str) : bool := startswith (strip line0) HASH.
Definition header_of (line0 : str) : str := strip (skipn 1 (strip line0)).
Definition is_text (line0 : str) : bool :=
  negb (is_blank line0) && negb (is_marker line0).

(** [header.lower().startswith("вывод")] *)
Definition is_conclusion_header (header : str) : bool :=
  startswith (lower header) VYVOD_LOWER.

(** The same test on the header itself: its first five letters are
    в, ы, в, о, д, each in either case. *)
Definition vyvod_prefix (header : str) : bool :=
  match header with
  | c1 :: c2 :: c3 :: c4 :: c5 :: _ =>
      ((c1 =? 0x412) || (c1 =? 0x432)) && ((c2 =? 0x42B) || (c2 =? 0x44B))
      && ((c3 =? 0x412) || (c3 =? 0x432)) && ((c4 =? 0x41E) || (c4 =? 0x43E))
      && ((c5 =? 0x414) || (c5 =? 0x434))
  | _ => false
  end.

(** [' '.join(current_p_lines).strip()] *)
Definition body_text (p_lines : list str) : str := strip (join SPACE p_lines).

(** A block is a marker line's header text with the stripped, non-blank
    text lines up to the next marker line. *)
Definition block : Type := (str * list str)%type.

(** The lines cut into the text lines before the first marker line, and the
    blocks. *)
Fixpoint blocks (lines : list str) : list str * list block :=
  match lines with
  | [] => ([], [])
  | line0 :: rest =>
      let (b, bs) := blocks rest in
      if is_blank line0 then (b, bs)
      else if is_marker line0 then ([], (header_of line0, b) :: bs)
      else (strip line0 :: b, bs)
  end.

(** What one whole block does to the document. *)
Definition emit (d : parsed_dict) (bl : block) : parsed_dict :=
  let (h, b) := bl in
  if negb (truthy (title d)) then mk_parsed h (sections d) (conclusion d)
  else if is_conclusion_header h then
    if truthy b then mk_parsed (title d) (sections d) (body_text b) else d
  else if truthy h && truthy b then
    mk_parsed (title d) (sections d ++ [mk_section h (body_text b)])
              (conclusion d)
  else d.

(** The first header text that is not empty. *)
Fixpoint title_of (bs : list block) : str :=
  match bs with
  | [] => []
  | (h, _) :: rest => if truthy h then h else title_of rest
  end.

(** The blocks after the one that gave the title. *)
Fixpoint after_title (bs : list block) : list block :=
  match bs with
  | [] => []
  | (h, _) :: rest => if truthy h then rest else after_title rest
  end.

(** The entry of [sections] a block yields, if any. *)
Definition section_of (bl : block) : list section_dict :=
  let (h, b) := bl in
  if negb (is_conclusion_header h) && truthy h && truthy b
  then [mk_section h (body_text b)] else [].

(** The value a block assigns to [conclusion], if any. *)
Definition conclusion_of (bl : block) : list str :=
  let (h, b) := bl in
  if is_conclusion_header h && truthy b then [body_text b] else [].

(** The state right after the line that set the title to [t]. *)
Definition titled_state (t : str) : loop_state :=
  mk_state (mk_parsed t [] []) None [] false.

(** The invariant of the loop: no heading before the title, and no
    collected line without a heading. *)
Definition loop_inv (st : loop_state) : Prop :=
  (truthy (title (parsed st)) = false -> current_h2 st = None) /\
  (h2_truthy (current_h2 st) = false -> current_p_lines st = []).

(** The marker branch of the loop body, in one equation. *)
Definition marker_step (st : loop_state) (header : str) : loop_state :=
  let d := save_block st in
  let p_lines := if block_ready st then [] else current_p_lines st in
  if negb (truthy (title d)) then
    mk_state (mk_parsed header (sections d) (conclusion d))
             (current_h2 st) p_lines (in_conclusion st)
  else if is_conclusion_header header then
    mk_state d (Some VYVOD) p_lines true
  else
    mk_state d (Some header) p_lines false.

(** The state with further text lines taken in. *)
Definition take_lines (st : loop_state) (b : list str) : loop_state :=
  if h2_truthy (current_h2 st) then
    mk_state (parsed st) (current_h2 st) (current_p_lines st ++ b)
             (in_conclusion st)
  else st.

(** Lines of a concatenation: the last line of the left part and the first
    line of the right part are one line. *)
Fixpoint glue (xs ys : list str) : list str :=
  match xs with
  | [] => ys
  | x :: xs' =>
      match xs' with
      | [] => match ys with
              | [] => [x]
              | y :: ys' => (x ++ y) :: ys'
              end
      | _ :: _ => x :: glue xs' ys
      end
  end.

(* ================================================================== *)
(** * The specification's readings that the code does not follow *)
(* ================================================================== *)

(** The conclusion paragraph as the specification words it: the label
    removed only from the very start. *)
Definition spec_conclusion_text (conclusion : str) : str :=
  let label := lit "вывод:" in
  strip (if startswith conclusion label
         then skipn (List.length label) conclusion
         else conclusion).

(** The title as the specification words it: the header text of the first
    marker line, whatever it is. *)
Fixpoint spec_title (lines : list str) : str :=
  match lines with
  | [] => []
  | line0 :: rest => if is_marker line0 then header_of line0 else spec_title rest
  end.

(** The conclusion as the specification words it: the body of the last
    block whose heading matches the conclusion keyword. *)
Definition spec_conclusion (bs : list block) : str :=
  match rev (filter (fun bl => is_conclusion_header (fst bl)) bs) with
  | (_, b) :: _ => body_text b
  | [] => []
  end.

(* ================================================================== *)
(** * Sample inputs *)
(* ================================================================== *)

(** The end-to-end scenario of the specification. *)
Definition raw_e2e : str :=
  lit "# Сокровища моря" ++ NL ++
  lit "# Начало" ++ NL ++
  lit "Корабль плыл по волнам." ++ NL ++
  lit "Команда искала приключения." ++ NL ++
  lit "# Вывод" ++ NL ++
  lit "Вывод: Плавание завершилось успехом.".

Definition doc_e2e : parsed_dict :=
  mk_parsed (lit "Сокровища моря")
            [mk_section (lit "Начало")
               (lit "Корабль плыл по волнам. Команда искала приключения.")]
            (lit "Вывод: Плавание завершилось успехом.").

(** The text [generate_html] writes for [doc_e2e]. *)
Definition html_e2e : str :=
  lit "<!DOCTYPE html>" ++ NL ++
  lit "<html lang=" ++ DQ ++ lit "ru" ++ DQ ++ lit ">" ++ NL ++
  lit "<head>" ++ NL ++
  lit "    <meta charset=" ++ DQ ++ lit "UTF-8" ++ DQ ++ lit ">" ++ NL ++
  lit "    <meta name=" ++ DQ ++ lit "viewport" ++ DQ ++ lit " content=" ++ DQ
    ++ lit "width=device-width, initial-scale=1.0" ++ DQ ++ lit ">" ++ NL ++
  lit "    <title>Сокровища моря</title>" ++ NL ++
  lit "    <style>" ++ NL ++
  lit "        body { font-family: 'Segoe UI', sans-serif; line-height: 1.7; max-width: 800px; margin: 40px auto; padding: 20px; background: #f9f9fb; color: #333; }" ++ NL ++
  lit "        h1 { color: #2c3e50; border-bottom: 3px solid #3498db; padding-bottom: 10px; }" ++ NL ++
  lit "        h2 { color: #2980b9; margin-top: 30px; }" ++ NL ++
  lit "        p { margin: 15px 0; text-align: justify; }" ++ NL ++
  lit "        .conclusion { background: #ecf0f1; padding: 20px; border-left: 5px solid #3498db; border-radius: 5px; }" ++ NL ++
  lit "    </style>" ++ NL ++
  lit "</head>" ++ NL ++
  lit "<body>" ++ NL ++
  lit "    <h1>Сокровища моря</h1>" ++ NL ++
  lit "    <h2>Начало</h2>" ++ NL ++
  lit "    <p>Корабль плыл по волнам. Команда искала приключения.</p>" ++ NL ++
  lit "    <div class='conclusion'>" ++ NL ++
  lit "        <h2>Вывод</h2>" ++ NL ++
  lit "        <p>Вывод: Плавание завершилось успехом.</p>" ++ NL ++
  lit "    </div>" ++ NL ++
  NL ++
  lit "</body>" ++ NL ++
  lit "</html>".

(** A conclusion that names the label in the middle of its text. *)
Definition raw_label_inside : str :=
  lit "# Море" ++ NL ++
  lit "# Вывод" ++ NL ++
  lit "Итак, вывод: всё ясно.".

Definition doc_label_inside : parsed_dict :=
  mk_parsed (lit "Море") [] (lit "Итак, вывод: всё ясно.").

(** A first marker line with no text after the marker. *)
Definition raw_bare_marker : str :=
  lit "#" ++ NL ++
  lit "# Море" ++ NL ++
  lit "# Волны" ++ NL ++
  lit "Волны шумят.".

(** Two conclusion headings, the second with no text under it. *)
Definition raw_two_conclusions : str :=
  lit "# Море" ++ NL ++
  lit "# Вывод" ++ NL ++
  lit "Первый итог." ++ NL ++
  lit "# Вывод".

(** A bare first marker line, then a conclusion heading with text under
    it. *)
Definition raw_untitled_conclusion : str :=
  lit "#" ++ NL ++
  lit "# Вывод" ++ NL ++
  lit "Итог.".

(** A conclusion block with a blank line inside, followed by a section. *)
Definition raw_conclusion_block : str :=
  lit "# Море" ++ NL ++
  lit "# Волны" ++ NL ++
  lit "Волны шумят." ++ NL ++
  lit "# ВЫВОД:" ++ NL ++
  lit "  Море спокойно. " ++ NL ++
  NL ++
  lit "Пора домой." ++ NL ++
  lit "# Берег" ++ NL ++
  lit "Песок тёплый.".

(** A text with no marker line. *)
Definition raw_no_marker : str :=
  lit "Просто текст" ++ NL ++ lit "без заголовков.".

(* ================================================================== *)
(** * parse_input *)
(* ================================================================== *)

(** [s.split()] with no separator: the maximal runs of code points that are
    not white space. *)
Fixpoint split_ws (s : str) : list str :=
  match s with
  | [] => []
  | c :: s' =>
      if isspace c then split_ws s'
      else match s' with
           | [] => [[c]]
           | c' :: _ =>
               if isspace c' then [c] :: split_ws s'
               else match split_ws s' with
                    | w :: ws => (c :: w) :: ws
                    | [] => [[c]]
                    end
           end
  end.

(** [{len(words)}] in an f-string: the number in decimal. *)
Definition str_of_nat (n : nat) : str :=
  map N_of_ascii
      (list_ascii_of_string (NilEmpty.string_of_uint (Nat.to_uint n))).

(** The text of the [ValueError] for [n] words. *)
Definition value_error_message (n : nat) : str :=
  lit "Ошибка: нужно ровно 5 слов, получено " ++ str_of_nat n ++ lit "." ++ NL
  ++ lit "Пример: --prompt 'волна корабль плыть приключение сокровища'".

(** What [parse_input] does once [argparse] has read the command line: it
    returns [(keywords, output_path)] or raises [ValueError]. *)
Inductive input_outcome : Type :=
  | Accepted (keywords : str) (output_path : path)
  | ValueError (message : str).

(** [default="article.html"] of [--output]. *)
Definition DEFAULT_OUTPUT : str := lit "article.html".

(** [parse_input], from [args.prompt] and the [--output] option as given
    on the command line ([None] when it is absent). *)
Definition parse_input (args_prompt : str) (args_output : option str)
  : input_outcome :=
  let output := match args_output with
                | Some o => o
                | None => DEFAULT_OUTPUT
                end in
  let words := split_ws (strip args_prompt) in
  if negb (Nat.eqb (List.length words) 5) then
    ValueError (value_error_message (List.length words))
  else
    Accepted (join SPACE words) output.

(* ================================================================== *)
(** * The program on its operating system: generate_html,
      generate_raw_text, main *)
(* ================================================================== *)

(** The two halves of the f-string [prompt], around [{keywords}]. *)
Definition PROMPT_HEAD : str :=
  lit "Напиши информативную и логичную статью на русском языке используя все слова из: ".
Definition PROMPT_TAIL : str :=
  lit ". Структурируй текст обособленными #заголовком, #абзацами и #выводом. Пиши только текст статьи.".

Definition build_prompt (keywords : str) : str :=
  PROMPT_HEAD ++ keywords ++ PROMPT_TAIL.

(** What the program can change: the files, and the lines printed. *)
Record world : Type := mk_world {
  files : filesystem;
  console : list str
}.

(** A step of the program ends with a value and the world changed, or
    raises and leaves the world as it is at that moment. *)
Inductive io (A : Type) : Type :=
  | Done (a : A) (w : world)
  | Failed (e : exn) (w : world).
Arguments Done {A} a w.
Arguments Failed {A} e w.

(** The world a step leaves behind. *)
Definition world_after {A : Type} (o : io A) : world :=
  match o with
  | Done _ w => w
  | Failed _ w => w
  end.

(** [print(text)] *)
Definition console_print (env : os_env) (w : world) (text : str) : io unit :=
  match print_fails env text with
  | Some e => Failed (exn_of e) w
  | None => Done tt (mk_world (files w) (console w ++ [text]))
  end.

(** [generate_html(parsed, output_path)]: the write of the assembled text,
    then the line printed on the console. *)
Definition generate_html (env : os_env) (d : parsed_dict) (output_path : path)
    (w : world) : io unit :=
  match write_text env (files w) output_path (html_text d) with
  | WriteError e fs => Failed e (mk_world fs (console w))
  | Written fs =>
      console_print env (mk_world fs (console w))
        (NL ++ lit "HTML сохранён: " ++ path_repr env output_path)
  end.

Section Program.

(** The text-generation pipeline with its fixed sampling parameters: from
    the prompt to [result[0]["generated_text"]].  The model is outside the
    program; whatever text it gives is a value of this function. *)
Variable pipe : str -> str.

Variable env : os_env.

Definition generate_raw_text (keywords : str) (w : world) : io str :=
  match console_print env w
          (lit "Генерация статьи по теме: " ++ keywords ++ NL) with
  | Failed e w1 => Failed e w1
  | Done _ w1 => Done (pipe (build_prompt keywords)) w1
  end.

Definition main (args_prompt : str) (args_output : option str) (w : world)
  : io unit :=
  match parse_input args_prompt args_output with
  | ValueError message => console_print env w message
  | Accepted keywords output_path =>
      match generate_raw_text keywords w with
      | Failed e w1 => Failed e w1
      | Done raw_text w1 =>
          match clean_and_parse_qwen_output raw_text with
          | Raise e => Failed e w1
          | Return parsed => generate_html env parsed output_path w1
          end
      end
  end.

End Program.

(** An operating system that lets every write and every [print] through,
    with line feeds kept and path texts taken as file names. *)
Definition willing_env : os_env :=
  mk_env (fun f => f) (fun _ _ => false) (fun _ _ _ => None) NL
         (fun _ => None) (fun f => f).

(* ================================================================== *)
(** * Notions used to state further properties *)
(* ================================================================== *)

(** A text with no white space at either end, and not empty. *)
Definition solid (s : str) : Prop := s <> [] /\ strip s = s.

(** A word: not empty, no white space inside. *)
Definition wordlike (w : str) : Prop :=
  w <> [] /\ forallb (fun c => negb (isspace c)) w = true.

(** A block with a trimmed header text and solid text lines. *)
Definition tidy_block (bl : block) : Prop :=
  strip (fst bl) = fst bl /\ Forall solid (snd bl).

(** A text that is one line and does not start with the marker. *)
Definition plain_line (l : str) : Prop :=
  ~ In LF l /\ startswith l HASH = false.

(** A block whose header text is one line and whose text lines are plain. *)
Definition clean_block (bl : block) : Prop :=
  ~ In LF (fst bl) /\ Forall plain_line (snd bl).

(** A text that fits on one line: solid, with no line feed. *)
Definition one_line (s : str) : Prop := solid s /\ ~ In LF s.

(** The documents in the layout the prompt asks for: one-line title and
    headings, no heading that passes the conclusion test, one-line bodies
    and conclusion that do not start with the marker. *)
Definition canonical_section (s : section_dict) : Prop :=
  one_line (h2 s) /\ is_conclusion_header (h2 s) = false /\
  one_line (p s) /\ startswith (p s) HASH = false.

Definition canonical_doc (d : parsed_dict) : Prop :=
  one_line (title d) /\
  Forall canonical_section (sections d) /\
  (conclusion d = [] \/
   (one_line (conclusion d) /\ startswith (conclusion d) HASH = false)).

(** The lines of a document written in that layout, and the text. *)
Definition marker_line (header : str) : str := HASH ++ SPACE ++ header.

Definition section_lines (s : section_dict) : list str :=
  [marker_line (h2 s); p s].

Definition conclusion_lines (conclusion : str) : list str :=
  if truthy conclusion then [marker_line VYVOD; conclusion] else [].

Definition doc_lines (d : parsed_dict) : list str :=
  marker_line (title d)
  :: flat_map section_lines (sections d) ++ conclusion_lines (conclusion d).

Definition doc_text (d : parsed_dict) : str := join NL (doc_lines d).

(** The text with every line feed preceded by a carriage return. *)
Definition CR : N := 13.
Definition to_crlf (s : str) : str :=
  flat_map (fun c => if c =? LF then [CR; LF] else [c]) s.

(** What one section adds to the HTML text. *)
Definition render_section (section : section_dict) : str :=
  (lit "    <h2>" ++ h2 section ++ lit "</h2>" ++ NL)
  ++ (lit "    <p>" ++ p section ++ lit "</p>" ++ NL).

(** What the conclusion adds to the HTML text. *)
Definition render_conclusion (conclusion : str) : str :=
  if truthy conclusion then
    (lit "    <div class='conclusion'>" ++ NL)
    ++ (lit "        <h2>Вывод</h2>" ++ NL)
    ++ (lit "        <p>" ++ conclusion_text conclusion ++ lit "</p>" ++ NL)
    ++ (lit "    </div>" ++ NL)
  else [].

(** The entry of [sections] a block yields, its body being the text lines
    joined by single spaces. *)
Definition joined_section_of (bl : block) : list section_dict :=
  let (h, b) := bl in
  if negb (is_conclusion_header h) && truthy h && truthy b
  then [mk_section h (join SPACE b)] else [].

(** The value a block assigns to [conclusion], likewise. *)
Definition joined_conclusion_of (bl : block) : list str :=
  let (h, b) := bl in
  if is_conclusion_header h && truthy b then [join SPACE b] else [].

(* ================================================================== *)
(** * Lemmas: the loop *)
(* ================================================================== *)

Section Loop.

Lemma truthy_false_iff {A : Type} (l : list A) : truthy l = false <-> l = [].
Proof. destruct l; simpl; split; congruence. Qed.

Lemma truthy_true_iff {A : Type} (l : list A) : truthy l = true <-> l <> [].
Proof. destruct l; simpl; split; congruence. Qed.

Lemma marker_not_blank (l : str) : is_marker l = true -> is_blank l = false.
Proof.
  unfold is_marker, is_blank. destruct (strip l); simpl; [discriminate | reflexivity].
Qed.

Lemma line_cases (l : str) :
  is_blank l = true \/ is_marker l = true \/ is_text l = true.
Proof.
  unfold is_text. destruct (is_blank l); [now left | right].
  destruct (is_marker l); [now left | now right].
Qed.

Lemma loop_body_blank (st : loop_state) (l : str) :
  is_blank l = true -> loop_body st l = st.
Proof. unfold is_blank, loop_body. cbv zeta. intros ->. reflexivity. Qed.

Lemma loop_body_marker (st : loop_state) (l : str) :
  is_marker l = true -> loop_body st l = marker_step st (header_of l).
Proof.
  intros Hm. pose proof (marker_not_blank l Hm) as Hb.
  unfold is_marker, is_blank in *. unfold loop_body. cbv zeta.
  rewrite Hb, Hm. reflexivity.
Qed.

Lemma loop_body_text (st : loop_state) (l : str) :
  is_text l = true -> loop_body st l = take_lines st [strip l].
Proof.
  unfold is_text, is_blank, is_marker, loop_body, take_lines. cbv zeta.
  intros H. apply andb_true_iff in H as [Hb Hm].
  apply negb_true_iff in Hb, Hm. rewrite Hb, Hm. reflexivity.
Qed.

Lemma title_save_block (st : loop_state) :
  title (save_block st) = title (parsed st).
Proof.
  unfold save_block. destruct (block_ready st); [|reflexivity].
  destruct (in_conclusion st); reflexivity.
Qed.

Lemma save_block_idle (st : loop_state) :
  block_ready st = false -> save_block st = parsed st.
Proof. unfold save_block. intros ->. reflexivity. Qed.

Lemma loop_inv_init : loop_inv init_state.
Proof. split; reflexivity. Qed.

Lemma p_lines_reset (st : loop_state) :
  loop_inv st -> (if block_ready st then [] else current_p_lines st) = [].
Proof.
  intros [_ H2]. unfold block_ready.
  destruct (h2_truthy (current_h2 st)) eqn:E; simpl.
  - destruct (current_p_lines st); reflexivity.
  - now apply H2.
Qed.

(** After a marker line nothing is collected yet. *)
Lemma marker_step_p_lines (st : loop_state) (h : str) :
  loop_inv st -> current_p_lines (marker_step st h) = [].
Proof.
  intros Hinv. pose proof (p_lines_reset st Hinv) as Hp.
  unfold marker_step. cbv zeta.
  destruct (negb (truthy (title (save_block st)))); [exact Hp|].
  destruct (is_conclusion_header h); exact Hp.
Qed.

Lemma loop_inv_marker (st : loop_state) (h : str) :
  loop_inv st -> loop_inv (marker_step st h).
Proof.
  intros Hinv. pose proof (marker_step_p_lines st h Hinv) as Hp.
  destruct Hinv as [H1 H2]. split; [|intros _; exact Hp].
  unfold marker_step in *. cbv zeta in *. rewrite title_save_block in *.
  destruct (truthy (title (parsed st))) eqn:Et; simpl.
  - destruct (is_conclusion_header h); simpl; rewrite title_save_block, Et;
      discriminate.
  - intros _. now apply H1.
Qed.

Lemma loop_inv_take (st : loop_state) (b : list str) :
  loop_inv st -> loop_inv (take_lines st b).
Proof.
  intros Hinv. unfold take_lines.
  destruct (h2_truthy (current_h2 st)) eqn:E; [|exact Hinv].
  destruct Hinv as [H1 H2].
  split; simpl; [exact H1 | intros E'; congruence].
Qed.

Lemma loop_inv_body (st : loop_state) (l : str) :
  loop_inv st -> loop_inv (loop_body st l).
Proof.
  intros Hinv. destruct (line_cases l) as [H | [H | H]].
  - now rewrite loop_body_blank.
  - rewrite loop_body_marker by assumption. now apply loop_inv_marker.
  - rewrite loop_body_text by assumption. now apply loop_inv_take.
Qed.

Lemma loop_inv_run (lines : list str) (st : loop_state) :
  loop_inv st -> loop_inv (run st lines).
Proof.
  revert st. induction lines as [|l lines IH]; intros st Hinv; simpl; [assumption|].
  apply IH. now apply loop_inv_body.
Qed.

Lemma run_app (st : loop_state) (l1 l2 : list str) :
  run st (l1 ++ l2) = run (run st l1) l2.
Proof. unfold run. apply fold_left_app. Qed.

Lemma run_cons (st : loop_state) (l : str) (ls : list str) :
  run st (l :: ls) = run (loop_body st l) ls.
Proof. reflexivity. Qed.

Lemma take_lines_nil (st : loop_state) : take_lines st [] = st.
Proof.
  unfold take_lines. destruct (h2_truthy (current_h2 st)); [|reflexivity].
  rewrite app_nil_r. now destruct st.
Qed.

Lemma take_lines_app (st : loop_state) (a b : list str) :
  take_lines (take_lines st a) b = take_lines st (a ++ b).
Proof.
  unfold take_lines. destruct (h2_truthy (current_h2 st)) eqn:E; simpl.
  - rewrite E. now rewrite app_assoc.
  - now rewrite E.
Qed.

(** A marker line and the text lines after it, closed: one block emitted. *)
Lemma save_marker_block (st : loop_state) (h : str) (b : list str) :
  loop_inv st ->
  save_block (take_lines (marker_step st h) b) = emit (save_block st) (h, b).
Proof.
  intros Hinv. pose proof (p_lines_reset st Hinv) as Hp.
  destruct Hinv as [H1 H2].
  unfold marker_step, emit. cbv zeta. rewrite Hp.
  destruct (truthy (title (save_block st))) eqn:Et; simpl.
  - destruct (is_conclusion_header h) eqn:Ec.
    + unfold take_lines, save_block, block_ready. simpl.
      destruct (truthy b); reflexivity.
    + unfold take_lines. simpl.
      destruct (truthy h) eqn:Eh; unfold save_block, block_ready; simpl;
        rewrite Eh; simpl; [|reflexivity].
      destruct (truthy b); reflexivity.
  - rewrite title_save_block in Et. rewrite (H1 Et).
    unfold take_lines, save_block at 1, block_ready. simpl. reflexivity.
Qed.

(** The loop and the last block, read as a fold over the blocks. *)
Lemma save_block_run (lines : list str) (st : loop_state) :
  loop_inv st ->
  save_block (run st lines) =
  fold_left emit (snd (blocks lines))
            (save_block (take_lines st (fst (blocks lines)))).
Proof.
  revert st. induction lines as [|l lines IH]; intros st Hinv.
  - simpl. now rewrite take_lines_nil.
  - rewrite run_cons. simpl blocks.
    destruct (blocks lines) as [b bs] eqn:Eb. simpl in IH.
    destruct (line_cases l) as [H | [H | H]].
    + rewrite H. rewrite loop_body_blank by assumption. now apply IH.
    + rewrite (marker_not_blank l H), H. rewrite loop_body_marker by assumption.
      rewrite IH by now apply loop_inv_marker.
      simpl. rewrite take_lines_nil. now rewrite save_marker_block.
    + unfold is_text in H. apply andb_true_iff in H as [Hb Hm].
      apply negb_true_iff in Hb, Hm. rewrite Hb, Hm.
      rewrite loop_body_text by (unfold is_text; now rewrite Hb, Hm).
      rewrite IH by now apply loop_inv_take.
      simpl. now rewrite take_lines_app.
Qed.

(** Text and blank lines met before any heading change nothing. *)
Lemma run_no_marker (pre : list str) (st : loop_state) :
  h2_truthy (current_h2 st) = false ->
  (forall x, In x pre -> is_marker x = false) ->
  run st pre = st.
Proof.
  intros Hh. induction pre as [|l pre IH]; intros Hpre; [reflexivity|].
  rewrite run_cons.
  assert (Hl : loop_body st l = st).
  { destruct (line_cases l) as [H | [H | H]].
    - now apply loop_body_blank.
    - rewrite Hpre in H; [discriminate | now left].
    - rewrite loop_body_text by assumption. unfold take_lines. now rewrite Hh. }
  rewrite Hl. apply IH. intros x Hx. apply Hpre. now right.
Qed.

(** What the generator expression finds. *)
Lemma next_hash_spec (lines : list str) (i : nat) :
  match next_hash i lines with
  | Return j =>
      exists k : nat, j = (i + k)%nat /\
        (forall x, In x (firstn k lines) -> is_marker x = false) /\
        (exists l rest, skipn k lines = l :: rest /\ is_marker l = true)
  | Raise e =>
      e = StopIteration /\ (forall x, In x lines -> is_marker x = false)
  end.
Proof.
  revert i. induction lines as [|l lines IH]; intros i; simpl.
  - split; [reflexivity | intros x []].
  - fold (is_marker l). destruct (is_marker l) eqn:Hm.
    + exists 0%nat. split; [lia|]. split; [intros x []|].
      exists l, lines. now split.
    + specialize (IH (S i)). destruct (next_hash (S i) lines) as [j | e].
      * destruct IH as (k & -> & Hpre & Hrest). exists (S k).
        split; [lia|]. split; [|exact Hrest].
        simpl. intros x [<- | Hx]; [assumption | now apply Hpre].
      * destruct IH as [-> Hall]. split; [reflexivity|].
        intros x [<- | Hx]; [assumption | now apply Hall].
Qed.

(** Cutting the lines before the first marker line changes nothing: the
    parser is the loop over all the lines, then the last block. *)
Lemma parse_run (raw_text : str) :
  clean_and_parse_qwen_output raw_text =
  Return (save_block (run init_state (split_nl (strip raw_text)))).
Proof.
  unfold clean_and_parse_qwen_output. cbv zeta.
  set (lines := split_nl (strip raw_text)).
  pose proof (next_hash_spec lines 0) as Hn.
  destruct (next_hash 0 lines) as [j | e]; simpl.
  - destruct Hn as (k & -> & Hpre & _). simpl.
    rewrite <- (firstn_skipn k lines) at 2. rewrite run_app.
    now rewrite (run_no_marker (firstn k lines) init_state).
  - destruct Hn as [-> Hall]. simpl.
    now rewrite (run_no_marker lines init_state).
Qed.

Lemma parse_blocks (raw_text : str) :
  clean_and_parse_qwen_output raw_text =
  Return (fold_left emit (snd (blocks (split_nl (strip raw_text))))
                    empty_parsed).
Proof.
  rewrite parse_run. now rewrite save_block_run by apply loop_inv_init.
Qed.

Lemma last_cons_default {A : Type} (x d : A) (l : list A) :
  last (x :: l) d = last l x.
Proof.
  revert x d. induction l as [|y l IH]; intros x d; [reflexivity|].
  change (last (y :: l) d = last (y :: l) x). now rewrite !IH.
Qed.

(** Once the title is set, each block adds its section or its conclusion. *)
Lemma fold_emit_titled (bs : list block) (d : parsed_dict) :
  truthy (title d) = true ->
  fold_left emit bs d =
  mk_parsed (title d) (sections d ++ flat_map section_of bs)
            (last (flat_map conclusion_of bs) (conclusion d)).
Proof.
  revert d. induction bs as [|[h b] bs IH]; intros d Ht.
  - simpl. rewrite app_nil_r. now destruct d.
  - simpl fold_left. rewrite Ht. simpl negb. cbv iota.
    simpl flat_map. unfold section_of at 1, conclusion_of at 1.
    destruct (is_conclusion_header h); simpl negb; simpl andb.
    + destruct (truthy b).
      * rewrite IH by exact Ht. cbn [title sections conclusion app].
        now rewrite last_cons_default.
      * rewrite IH by exact Ht. reflexivity.
    + destruct (truthy h && truthy b).
      * rewrite IH by exact Ht. cbn [title sections conclusion].
        now rewrite <- app_assoc.
      * rewrite IH by exact Ht. reflexivity.
Qed.

Lemma fold_emit_untitled (bs : list block) (d : parsed_dict) :
  title d = [] ->
  fold_left emit bs d =
  mk_parsed (title_of bs) (sections d ++ flat_map section_of (after_title bs))
            (last (flat_map conclusion_of (after_title bs)) (conclusion d)).
Proof.
  revert d. induction bs as [|[h b] bs IH]; intros d Ht.
  - simpl. rewrite app_nil_r. destruct d; simpl in *. now subst.
  - simpl fold_left. rewrite Ht. simpl negb. cbv iota.
    simpl title_of. simpl after_title. destruct (truthy h) eqn:Eh.
    + now rewrite fold_emit_titled.
    + apply truthy_false_iff in Eh. subst h. now rewrite IH.
Qed.

(** The parser in closed form. *)
Lemma parse_closed_form (raw_text : str) :
  let bs := snd (blocks (split_nl (strip raw_text))) in
  clean_and_parse_qwen_output raw_text =
  Return (mk_parsed (title_of bs)
                    (flat_map section_of (after_title bs))
                    (last (flat_map conclusion_of (after_title bs)) [])).
Proof.
  intros bs. rewrite parse_blocks. fold bs.
  now rewrite fold_emit_untitled.
Qed.

(** Marker lines with nothing after the marker leave the start state as
    it is, as long as no title was set. *)
Lemma run_untitled (pre : list str) :
  (forall x, In x pre -> is_marker x = true -> header_of x = []) ->
  run init_state pre = init_state.
Proof.
  induction pre as [|l pre IH]; intros Hpre; [reflexivity|].
  rewrite run_cons.
  assert (Hl : loop_body init_state l = init_state).
  { destruct (line_cases l) as [H | [H | H]].
    - now apply loop_body_blank.
    - rewrite loop_body_marker by assumption.
      rewrite (Hpre l (or_introl eq_refl) H). reflexivity.
    - rewrite loop_body_text by assumption. reflexivity. }
  rewrite Hl. apply IH. intros x Hx. apply Hpre. now right.
Qed.

Lemma first_title_step (l : str) :
  is_marker l = true ->
  loop_body init_state l = titled_state (header_of l).
Proof. intros H. rewrite loop_body_marker by assumption. reflexivity. Qed.

(** A title that is set is never changed. *)
Lemma title_loop_body (st : loop_state) (l : str) :
  truthy (title (parsed st)) = true ->
  title (parsed (loop_body st l)) = title (parsed st).
Proof.
  intros Ht. destruct (line_cases l) as [H | [H | H]].
  - now rewrite loop_body_blank.
  - rewrite loop_body_marker by assumption. unfold marker_step. cbv zeta.
    rewrite title_save_block, Ht. simpl.
    destruct (is_conclusion_header (header_of l)); simpl;
      apply title_save_block.
  - rewrite loop_body_text by assumption. unfold take_lines.
    now destruct (h2_truthy (current_h2 st)).
Qed.

Lemma title_run (lines : list str) (st : loop_state) :
  truthy (title (parsed st)) = true ->
  title (parsed (run st lines)) = title (parsed st).
Proof.
  revert st. induction lines as [|l lines IH]; intros st Ht; [reflexivity|].
  rewrite run_cons, IH.
  - now apply title_loop_body.
  - now rewrite title_loop_body.
Qed.

(** Text lines in a row are taken in together. *)
Lemma run_text (body : list str) (st : loop_state) :
  (forall x, In x body -> is_text x = true) ->
  run st body = take_lines st (map strip body).
Proof.
  revert st. induction body as [|x body IH]; intros st Hb.
  - simpl. now rewrite take_lines_nil.
  - rewrite run_cons, loop_body_text by (apply Hb; now left).
    rewrite IH by (intros y Hy; apply Hb; now right).
    now rewrite take_lines_app.
Qed.

Lemma run_blank (blanks : list str) (st : loop_state) :
  (forall x, In x blanks -> is_blank x = true) ->
  run st blanks = st.
Proof.
  induction blanks as [|x blanks IH]; intros Hb; [reflexivity|].
  rewrite run_cons, loop_body_blank by (apply Hb; now left).
  apply IH. intros y Hy. apply Hb. now right.
Qed.

(** On a titled document a marker line commits the block before it. *)
Lemma marker_step_parsed (st : loop_state) (h : str) :
  truthy (title (parsed st)) = true ->
  parsed (marker_step st h) = save_block st.
Proof.
  intros Ht. unfold marker_step. cbv zeta. rewrite title_save_block, Ht.
  simpl. now destruct (is_conclusion_header h).
Qed.

Lemma after_title_incl (bs : list block) (bl : block) :
  In bl (after_title bs) -> In bl bs.
Proof.
  induction bs as [|[h b] bs IH]; simpl; [tauto|].
  destruct (truthy h); intros H; right; [exact H | now apply IH].
Qed.

Lemma last_in {A : Type} (l : list A) (d : A) : l <> [] -> In (last l d) l.
Proof.
  induction l as [|x l IH]; [congruence|]. intros _.
  destruct l as [|y l]; [now left|]. right. apply IH. discriminate.
Qed.

End Loop.

(* ================================================================== *)
(** * Lemmas: strings *)
(* ================================================================== *)

Section Strings.

Lemma hash_lit : HASH = [35].
Proof. reflexivity. Qed.

Lemma lstrip_all_space (s : str) :
  forallb isspace s = true -> lstrip s = [].
Proof.
  induction s as [|c s IH]; simpl; [reflexivity|].
  intros H. apply andb_true_iff in H as [Hc Hs]. rewrite Hc. now apply IH.
Qed.

Lemma lstrip_nil (s : str) : lstrip s = [] -> forallb isspace s = true.
Proof.
  induction s as [|c s IH]; simpl; [reflexivity|].
  destruct (isspace c); [exact IH | discriminate].
Qed.

Lemma lstrip_app (u v : str) :
  lstrip (u ++ v) = if forallb isspace u then lstrip v else lstrip u ++ v.
Proof.
  induction u as [|c u IH]; simpl; [reflexivity|].
  destruct (isspace c); simpl; [exact IH | reflexivity].
Qed.

Lemma forallb_rev {A : Type} (f : A -> bool) (l : list A) :
  forallb f (rev l) = forallb f l.
Proof.
  induction l as [|a l IH]; simpl; [reflexivity|].
  rewrite forallb_app, IH. simpl. rewrite andb_true_r. apply andb_comm.
Qed.

(** [rstrip], read from the left. *)
Lemma rstrip_cons (c : N) (t : str) :
  rstrip (c :: t) = if forallb isspace (c :: t) then [] else c :: rstrip t.
Proof.
  unfold rstrip. simpl rev. rewrite lstrip_app, forallb_rev. simpl forallb.
  destruct (forallb isspace t) eqn:Et.
  - simpl lstrip. rewrite andb_true_r.
    rewrite (lstrip_all_space (rev t)) by now rewrite forallb_rev.
    destruct (isspace c); reflexivity.
  - rewrite andb_false_r. rewrite rev_app_distr. reflexivity.
Qed.

(** A string is its [rstrip] followed by white space. *)
Lemma rstrip_decomp (s : str) :
  exists w, s = rstrip s ++ w /\ forallb isspace w = true.
Proof.
  induction s as [|c s (w & Hs & Hw)].
  - exists []. now split.
  - rewrite rstrip_cons. destruct (forallb isspace (c :: s)) eqn:E.
    + exists (c :: s). now split.
    + exists w. split; [|exact Hw]. simpl. now rewrite <- Hs.
Qed.

Lemma startswith_nil (s : str) : startswith s [] = true.
Proof. now destruct s. Qed.

Lemma startswith_single (c a : N) (t : str) :
  startswith (c :: t) [a] = (a =? c).
Proof. cbn [startswith]. now rewrite startswith_nil, andb_true_r. Qed.

Lemma startswith_app (s t : str) : startswith (s ++ t) s = true.
Proof.
  induction s as [|c s IH]; simpl; [apply startswith_nil|].
  now rewrite N.eqb_refl, IH.
Qed.

(** Whether a line is a marker line is decided by [lstrip] alone. *)
Lemma is_marker_lstrip (l : str) : is_marker l = startswith (lstrip l) HASH.
Proof.
  unfold is_marker, strip. rewrite hash_lit.
  destruct (lstrip l) as [|c t] eqn:E; [reflexivity|].
  rewrite rstrip_cons. destruct (forallb isspace (c :: t)) eqn:Ea.
  - simpl in Ea. apply andb_true_iff in Ea as [Hc _].
    rewrite startswith_single.
    destruct (N.eqb_spec 35 c) as [<-|]; [discriminate Hc | reflexivity].
  - now rewrite !startswith_single.
Qed.

Lemma is_marker_app_space (x w : str) :
  forallb isspace w = true -> is_marker (x ++ w) = is_marker x.
Proof.
  intros Hw. rewrite !is_marker_lstrip, lstrip_app.
  destruct (forallb isspace x) eqn:Ex.
  - rewrite (lstrip_all_space w Hw), (lstrip_all_space x Ex). reflexivity.
  - destruct (lstrip x) as [|c t] eqn:E.
    + apply lstrip_nil in E. congruence.
    + rewrite hash_lit. simpl app. now rewrite !startswith_single.
Qed.

Lemma is_marker_cons_space (c : N) (l : str) :
  isspace c = true -> is_marker (c :: l) = is_marker l.
Proof. intros Hc. rewrite !is_marker_lstrip. simpl. now rewrite Hc. Qed.

Lemma split_nl_not_nil (s : str) : split_nl s <> [].
Proof.
  destruct s as [|c s]; simpl; [discriminate|].
  destruct (c =? LF); [discriminate|]. destruct (split_nl s); discriminate.
Qed.

Lemma split_nl_app (a b : str) :
  split_nl (a ++ b) = glue (split_nl a) (split_nl b).
Proof.
  induction a as [|c a IH]; simpl.
  - pose proof (split_nl_not_nil b). destruct (split_nl b); [contradiction | reflexivity].
  - destruct (c =? LF).
    + rewrite IH. pose proof (split_nl_not_nil a).
      destruct (split_nl a); [contradiction | reflexivity].
    + rewrite IH. pose proof (split_nl_not_nil a) as Ha.
      pose proof (split_nl_not_nil b) as Hb.
      destruct (split_nl a) as [|l0 ls]; [contradiction|].
      destruct ls as [|l1 ls].
      * simpl. destruct (split_nl b); [contradiction | reflexivity].
      * reflexivity.
Qed.

Lemma glue_in (xs : list str) (y : str) (ys : list str) (x : str) :
  In x xs -> In x (glue xs (y :: ys)) \/ In (x ++ y) (glue xs (y :: ys)).
Proof.
  induction xs as [|x0 xs IH]; intros Hx; [destruct Hx|].
  destruct xs as [|x1 xs].
  - destruct Hx as [<- | []]. right. now left.
  - destruct Hx as [<- | Hx].
    + left. now left.
    + destruct (IH Hx) as [H | H]; [left | right]; now right.
Qed.

Lemma split_nl_chars (s l : str) (c : N) :
  In l (split_nl s) -> In c l -> In c s.
Proof.
  revert l. induction s as [|a s IH]; intros l; simpl.
  - intros [<- | []] [].
  - destruct (a =? LF).
    + intros [<- | Hl]; [intros [] | intros Hc; right; now apply (IH l)].
    + pose proof (split_nl_not_nil s) as Hn.
      destruct (split_nl s) as [|l0 ls]; [contradiction|].
      intros [<- | Hl] Hc.
      * destruct Hc as [-> | Hc]; [now left | right]. apply (IH l0); [now left | exact Hc].
      * right. apply (IH l); [now right | exact Hc].
Qed.

(** Stripping the whole text brings no new marker line. *)
Lemma lstrip_markers (s : str) :
  (forall l, In l (split_nl s) -> is_marker l = false) ->
  forall l, In l (split_nl (lstrip s)) -> is_marker l = false.
Proof.
  induction s as [|c s IH]; intros Hs; [exact Hs|].
  simpl lstrip. destruct (isspace c) eqn:Hc; [|exact Hs].
  apply IH. intros l Hl. simpl in Hs. destruct (c =? LF).
  - apply Hs. now right.
  - destruct (split_nl s) as [|l0 ls]; [destruct Hl|].
    destruct Hl as [<- | Hl].
    + rewrite <- (is_marker_cons_space c l0 Hc). apply Hs. now left.
    + apply Hs. now right.
Qed.

Lemma rstrip_markers (s : str) :
  (forall l, In l (split_nl s) -> is_marker l = false) ->
  forall l, In l (split_nl (rstrip s)) -> is_marker l = false.
Proof.
  intros Hs l Hl. destruct (rstrip_decomp s) as (w & Hd & Hw).
  rewrite Hd in Hs. rewrite split_nl_app in Hs.
  pose proof (split_nl_not_nil w) as Hn.
  destruct (split_nl w) as [|w0 ws] eqn:Ew; [contradiction|].
  assert (Hw0 : forallb isspace w0 = true).
  { apply forallb_forall. intros c Hc.
    apply (proj1 (forallb_forall isspace w) Hw).
    apply (split_nl_chars w w0 c); [rewrite Ew; now left | exact Hc]. }
  destruct (glue_in _ w0 ws l Hl) as [H | H].
  - now apply Hs.
  - rewrite <- (is_marker_app_space l w0 Hw0). now apply Hs.
Qed.

Lemma strip_markers (s : str) :
  (forall l, In l (split_nl s) -> is_marker l = false) ->
  forall l, In l (split_nl (strip s)) -> is_marker l = false.
Proof.
  intros Hs. unfold strip. apply rstrip_markers. now apply lstrip_markers.
Qed.

(** [replace]: with no occurrence the text is unchanged. *)
Lemma replace1_absent (old new s : str) :
  (forall i, startswith (skipn i s) old = false) ->
  replace1 old new s = s.
Proof.
  induction s as [|c s IH]; intros H;
    pose proof (H 0%nat) as H0; cbn [skipn] in H0; cbn [replace1]; rewrite H0.
  - reflexivity.
  - f_equal. apply IH. intros i. exact (H (S i)).
Qed.

(** [replace]: the leftmost occurrence is the one replaced. *)
Lemma replace1_leftmost (old new a b : str) :
  (forall i, (i < List.length a)%nat ->
             startswith (skipn i (a ++ old ++ b)) old = false) ->
  replace1 old new (a ++ old ++ b) = a ++ new ++ b.
Proof.
  induction a as [|c a IH]; intros H.
  - cbn [app]. destruct (old ++ b) eqn:E; cbn [replace1]; rewrite <- E;
      rewrite startswith_app;
      now rewrite skipn_app, skipn_all, Nat.sub_diag.
  - cbn [app]. cbn [replace1].
    pose proof (H 0%nat ltac:(simpl; lia)) as H0. cbn [skipn app] in H0.
    rewrite H0.
    f_equal. apply IH. intros i Hi. apply (H (S i)). simpl. lia.
Qed.

Ltac bool_to_prop :=
  rewrite ?andb_true_iff, ?andb_false_iff, ?negb_true_iff, ?negb_false_iff,
    ?N.leb_le, ?N.leb_gt, ?N.eqb_eq, ?N.eqb_neq in *.

(** The lower case of [c] starts a text with the small Cyrillic letter [t]
    exactly when [c] is that letter or its capital. *)
Lemma startswith_lower_cp (c t : N) (rest kw : str) :
  0x430 <= t <= 0x44F ->
  startswith (lower_cp c ++ rest) (t :: kw) =
  ((c =? t - 0x20) || (c =? t)) && startswith rest kw.
Proof.
  intros Ht. unfold lower_cp.
  repeat match goal with
         | |- context [if ?b then _ else _] => destruct b eqn:?
         end;
    cbn [app startswith];
    match goal with
    | |- (?x =? ?y) && _ = _ =>
        assert (Hhead : (x =? y) = ((c =? t - 0x20) || (c =? t)));
        [ apply eq_iff_eq_true; rewrite orb_true_iff; bool_to_prop; lia
        | rewrite Hhead ]
    end;
    try reflexivity.
  (* U+0130 lowers to two code points, neither a Cyrillic letter *)
  destruct (N.eqb_spec c (t - 0x20)); destruct (N.eqb_spec c t);
    cbn [andb orb]; try reflexivity; exfalso; bool_to_prop; lia.
Qed.

Lemma is_conclusion_header_prefix (h : str) :
  is_conclusion_header h = vyvod_prefix h.
Proof.
  unfold is_conclusion_header, vyvod_prefix, lower.
  change VYVOD_LOWER with [0x432; 0x44B; 0x432; 0x43E; 0x434].
  destruct h as [|c1 [|c2 [|c3 [|c4 [|c5 h]]]]]; cbn [flat_map];
    repeat (rewrite startswith_lower_cp by lia);
    rewrite ?app_nil_r; cbn [startswith]; rewrite ?andb_false_r;
    try reflexivity.
  rewrite startswith_nil, andb_true_r.
  change (0x432 - 0x20) with 0x412. change (0x44B - 0x20) with 0x42B.
  change (0x43E - 0x20) with 0x41E. change (0x434 - 0x20) with 0x414.
  now rewrite !andb_assoc.
Qed.

End Strings.

(* ================================================================== *)
(** * The end-to-end scenario *)
(* ================================================================== *)

(** C1, as the specification states it, fails: the scenario parses as stated,
    but the conclusion paragraph of the rendered document is not
    "Плавание завершилось успехом.": no such paragraph occurs in the
    document. *)
Lemma e2e_paragraph_not_stripped :
  clean_and_parse_qwen_output raw_e2e = Return doc_e2e /\
  conclusion_text (conclusion doc_e2e) <> lit "Плавание завершилось успехом." /\
  contains (html_text doc_e2e) (lit "<p>Плавание завершилось успехом.</p>")
    = false.
Proof.
  split; [vm_compute; reflexivity|].
  split; [vm_compute; discriminate | vm_compute; reflexivity].
Qed.

(** C1, amended: the scenario parses to the stated title, section and
    conclusion, and the rendered conclusion paragraph keeps the capitalised
    label: its text is "Вывод: Плавание завершилось успехом.". *)
Theorem e2e_scenario :
  clean_and_parse_qwen_output raw_e2e = Return doc_e2e /\
  conclusion_text (conclusion doc_e2e)
    = lit "Вывод: Плавание завершилось успехом." /\
  html_text doc_e2e = html_e2e.
Proof.
  split; [vm_compute; reflexivity|].
  split; vm_compute; reflexivity.
Qed.

(* ================================================================== *)
(** * The conclusion paragraph *)
(* ================================================================== *)

(** C2, as the specification states it, fails: a conclusion with the label
    in the middle of its text does not render unchanged; the label is cut
    out of the middle. *)
Lemma label_removed_from_the_middle :
  clean_and_parse_qwen_output raw_label_inside = Return doc_label_inside /\
  startswith (conclusion doc_label_inside) (lit "вывод:") = false /\
  spec_conclusion_text (conclusion doc_label_inside)
    = lit "Итак, вывод: всё ясно." /\
  conclusion_text (conclusion doc_label_inside) = lit "Итак,  всё ясно." /\
  conclusion_text (conclusion doc_label_inside)
    <> spec_conclusion_text (conclusion doc_label_inside).
Proof.
  repeat split; try (vm_compute; reflexivity).
  vm_compute. discriminate.
Qed.

(** C2, amended: for a document with a non-empty conclusion the rendered
    conclusion paragraph is the conclusion with the leftmost case-sensitive
    occurrence of "вывод:" removed, wherever it stands (at the start or
    further in), then trimmed; a conclusion in which "вывод:" does not occur
    renders unchanged apart from trimming. *)
Theorem conclusion_paragraph (d : parsed_dict) :
  truthy (conclusion d) = true ->
  html_text d =
    fold_left html_section (sections d) (html_shell (title d))
    ++ (lit "    <div class='conclusion'>" ++ NL)
    ++ (lit "        <h2>Вывод</h2>" ++ NL)
    ++ (lit "        <p>" ++ conclusion_text (conclusion d) ++ lit "</p>" ++ NL)
    ++ (lit "    </div>" ++ NL)
    ++ html_tail
  /\ (forall b : str,
        conclusion d = lit "вывод:" ++ b ->
        conclusion_text (conclusion d) = strip b)
  /\ (forall a b : str,
        conclusion d = a ++ lit "вывод:" ++ b ->
        (forall i, (i < List.length a)%nat ->
           startswith (skipn i (conclusion d)) (lit "вывод:") = false) ->
        conclusion_text (conclusion d) = strip (a ++ b))
  /\ ((forall i, startswith (skipn i (conclusion d)) (lit "вывод:") = false) ->
      conclusion_text (conclusion d) = strip (conclusion d)).
Proof.
  intros Hc. split; [|split; [|split]].
  - unfold html_text, html_conclusion. cbv zeta. rewrite Hc.
    now rewrite <- !app_assoc.
  - intros b Hb. unfold conclusion_text. rewrite Hb.
    change (lit "вывод:" ++ b) with ([] ++ lit "вывод:" ++ b).
    rewrite (replace1_leftmost (lit "вывод:") [] [] b); [reflexivity|].
    intros i Hi. inversion Hi.
  - intros a b Hab Hleft. unfold conclusion_text. rewrite Hab in *.
    now rewrite (replace1_leftmost (lit "вывод:") [] a b Hleft).
  - intros Habs. unfold conclusion_text.
    now rewrite (replace1_absent (lit "вывод:") [] (conclusion d) Habs).
Qed.

Lemma conclusion_paragraph_witness :
  truthy (conclusion doc_label_inside) = true /\
  conclusion_text (conclusion doc_label_inside)
    = strip (lit "Итак, " ++ lit " всё ясно.").
Proof.
  split; [reflexivity|].
  apply (proj1 (proj2 (proj2 (conclusion_paragraph doc_label_inside eq_refl)))).
  - vm_compute. reflexivity.
  - intros i Hi.
    assert (Hcases : (i = 0 \/ i = 1 \/ i = 2 \/ i = 3 \/ i = 4 \/ i = 5)%nat).
    { change (List.length (lit "Итак, ")) with 6%nat in Hi. lia. }
    destruct Hcases as [-> | [-> | [-> | [-> | [-> | ->]]]]];
      vm_compute; reflexivity.
Defined.

(* ================================================================== *)
(** * The title *)
(* ================================================================== *)

(** C3, as the specification states it, fails: when the first marker line
    has no text after the marker, the title is not that (empty) text; a
    later marker line becomes the title. *)
Lemma later_marker_becomes_title :
  clean_and_parse_qwen_output raw_bare_marker =
    Return (mk_parsed (lit "Море")
              [mk_section (lit "Волны") (lit "Волны шумят.")] []) /\
  spec_title (split_nl (strip raw_bare_marker)) = [] /\
  (forall d, clean_and_parse_qwen_output raw_bare_marker = Return d ->
             title d <> spec_title (split_nl (strip raw_bare_marker))).
Proof.
  split; [vm_compute; reflexivity|]. split; [vm_compute; reflexivity|].
  intros d. vm_compute. intros H. injection H as <-. discriminate.
Qed.

(** C3, amended: the title is the header text of the first marker line
    whose header text is not empty (and the document is all empty when
    there is no such line).  Marker lines with an empty header text before
    it set nothing.  The line that sets the title opens no block: the
    sections and the conclusion are those the lines after it give, starting
    with no heading.  No later marker line changes the title. *)
Theorem title_from_first_nonempty_header
    (raw_text : str) (pre rest : list str) :
  split_nl (strip raw_text) = pre ++ rest ->
  (forall x, In x pre -> is_marker x = true -> header_of x = []) ->
  match rest with
  | [] => True
  | l :: _ => is_marker l = true /\ header_of l <> []
  end ->
  exists d,
    clean_and_parse_qwen_output raw_text = Return d /\
    run init_state pre = init_state /\
    match rest with
    | [] => d = empty_parsed
    | l :: post =>
        title d = header_of l /\
        d = save_block (run (titled_state (header_of l)) post)
    end.
Proof.
  intros Hlines Hpre Hrest. rewrite parse_run, Hlines, run_app.
  pose proof (run_untitled pre Hpre) as Hrun. rewrite Hrun.
  eexists. split; [reflexivity|]. split; [reflexivity|].
  destruct rest as [|l post]; [reflexivity|].
  destruct Hrest as [Hm Hh]. rewrite run_cons, first_title_step by assumption.
  split; [|reflexivity].
  rewrite title_save_block, title_run; [reflexivity|].
  now apply truthy_true_iff.
Qed.

Lemma title_from_first_nonempty_header_witness :
  exists d,
    clean_and_parse_qwen_output raw_bare_marker = Return d /\
    run init_state [lit "#"] = init_state /\
    title d = header_of (lit "# Море") /\
    d = save_block (run (titled_state (header_of (lit "# Море")))
                        [lit "# Волны"; lit "Волны шумят."]).
Proof.
  apply (title_from_first_nonempty_header raw_bare_marker [lit "#"]
           [lit "# Море"; lit "# Волны"; lit "Волны шумят."]).
  - vm_compute. reflexivity.
  - intros x [<- | []] _. vm_compute. reflexivity.
  - split; [vm_compute; reflexivity | vm_compute; discriminate].
Defined.

(* ================================================================== *)
(** * The conclusion *)
(* ================================================================== *)

(** C4, as the specification states it, fails: with two conclusion headings
    of which the last has no text under it, the body kept is the one of the
    first heading, not the (empty) body of the last. *)
Lemma earlier_conclusion_kept :
  clean_and_parse_qwen_output raw_two_conclusions =
    Return (mk_parsed (lit "Море") [] (lit "Первый итог.")) /\
  snd (blocks (split_nl (strip raw_two_conclusions))) =
    [ (lit "Море", []);
      (lit "Вывод", [lit "Первый итог."]);
      (lit "Вывод", []) ] /\
  spec_conclusion (snd (blocks (split_nl (strip raw_two_conclusions)))) = [] /\
  (forall d, clean_and_parse_qwen_output raw_two_conclusions = Return d ->
     conclusion d <>
     spec_conclusion (snd (blocks (split_nl (strip raw_two_conclusions))))).
Proof.
  repeat split; try (vm_compute; reflexivity).
  intros d. vm_compute. intros H. injection H as <-. discriminate.
Qed.

(** C4, amended: the document has one conclusion field; its value is the
    body of the last conclusion heading (after the title) that has at least
    one text line under it, and the empty string when there is none.  A
    conclusion heading with no text under it leaves the earlier value in
    place; so the last conclusion heading wins whenever it has text.
    Saving a conclusion block overwrites the field. *)
Theorem conclusion_last_block_with_body (raw_text : str) :
  let bs := after_title (snd (blocks (split_nl (strip raw_text)))) in
  (exists d,
     clean_and_parse_qwen_output raw_text = Return d /\
     conclusion d = last (flat_map conclusion_of bs) [] /\
     (forall (bs1 : list block) (h : str) (b : list str) (bs2 : list block),
        bs = bs1 ++ (h, b) :: bs2 ->
        is_conclusion_header h = true ->
        (forall bl, In bl bs2 ->
           is_conclusion_header (fst bl) = false \/ snd bl = []) ->
        b <> [] ->
        conclusion d = body_text b)) /\
  (forall st : loop_state,
     conclusion (save_block st) =
     if block_ready st && in_conclusion st
     then body_text (current_p_lines st)
     else conclusion (parsed st)).
Proof.
  intros bs. split.
  - rewrite parse_closed_form. fold bs. eexists.
    split; [reflexivity|]. split; [reflexivity|]. cbn [conclusion].
    intros bs1 h b bs2 Hbs Hh Hlater Hb.
    rewrite Hbs, flat_map_app. cbn [flat_map].
    assert (Hnone : flat_map conclusion_of bs2 = []).
    { clear -Hlater. change (list (str * list str)) with (list block) in *.
      induction bs2 as [|[h' b'] bs2 IH]; [reflexivity|].
      cbn [flat_map]. rewrite IH by (intros bl Hbl; apply Hlater; now right).
      rewrite app_nil_r. unfold conclusion_of.
      destruct (Hlater (h', b') (or_introl eq_refl)) as [E | E];
        simpl in E; rewrite E; [reflexivity|].
      now rewrite andb_false_r. }
    rewrite Hnone, app_nil_r. unfold conclusion_of at 2. rewrite Hh.
    apply truthy_true_iff in Hb. rewrite Hb. cbn [andb].
    apply last_last.
  - intros st. unfold save_block. cbv zeta.
    destruct (block_ready st); [|reflexivity].
    destruct (in_conclusion st); reflexivity.
Qed.

Lemma conclusion_last_block_with_body_witness :
  exists d,
    clean_and_parse_qwen_output raw_two_conclusions = Return d /\
    conclusion d = body_text [lit "Первый итог."].
Proof.
  destruct (proj1 (conclusion_last_block_with_body raw_two_conclusions))
    as (d & Hd & _ & Hlast).
  exists d. split; [exact Hd|].
  apply (Hlast [] (lit "Вывод") [lit "Первый итог."] [(lit "Вывод", [])]).
  - vm_compute. reflexivity.
  - vm_compute. reflexivity.
  - intros bl [<- | []]. right. reflexivity.
  - discriminate.
Defined.

Example last_conclusion_wins :
  clean_and_parse_qwen_output
    (lit "# Море" ++ NL ++ lit "# Вывод" ++ NL ++ lit "Первый итог." ++ NL ++
     lit "# ВЫВОД:" ++ NL ++ lit "Второй" ++ NL ++ lit "итог.") =
  Return (mk_parsed (lit "Море") [] (lit "Второй итог.")).
Proof. vm_compute. reflexivity. Qed.

(* ================================================================== *)
(** * Blocks without text, headings without text *)
(* ================================================================== *)

(** C6: whatever the input, every entry of the sections, and a non-empty
    conclusion, comes from a block that collected at least one non-blank
    text line.  In particular, when a marker line is followed by another
    marker line with no text between them (blank lines apart), the first of
    the two adds no entry to the sections and no conclusion. *)
Theorem block_needs_body :
  (forall raw_text : str,
     let bs := snd (blocks (split_nl (strip raw_text))) in
     exists d,
       clean_and_parse_qwen_output raw_text = Return d /\
       (forall s, In s (sections d) ->
          exists h b, In (h, b) bs /\ b <> [] /\
                      s = mk_section h (body_text b)) /\
       (conclusion d <> [] ->
          exists h b, In (h, b) bs /\ b <> [] /\
                      conclusion d = body_text b)) /\
  (forall (pre : list str) (l1 : str) (blanks : list str) (l2 : str),
     is_marker l1 = true ->
     (forall x, In x blanks -> is_blank x = true) ->
     is_marker l2 = true ->
     let st1 := run init_state (pre ++ [l1]) in
     let st2 := run st1 (blanks ++ [l2]) in
     current_p_lines st1 = [] /\
     save_block st1 = parsed st1 /\
     sections (parsed st2) = sections (parsed st1) /\
     conclusion (parsed st2) = conclusion (parsed st1)).
Proof.
  split.
  - intros raw_text bs. rewrite parse_closed_form. fold bs.
    eexists. split; [reflexivity|]. cbn [sections conclusion]. split.
    + intros s Hs. apply in_flat_map in Hs as ([h b] & Hin & Hs).
      apply after_title_incl in Hin. unfold section_of in Hs.
      destruct (negb (is_conclusion_header h) && truthy h && truthy b) eqn:E;
        [|destruct Hs].
      destruct Hs as [<- | []]. exists h, b. split; [exact Hin|].
      split; [|reflexivity].
      apply andb_true_iff in E as [_ E]. now apply truthy_true_iff.
    + intros Hc.
      set (L := flat_map conclusion_of (after_title bs)) in *.
      assert (HL : L <> []) by (intros E; rewrite E in Hc; now apply Hc).
      pose proof (last_in L [] HL) as Hin. unfold L at 2 in Hin.
      apply in_flat_map in Hin as ([h b] & Hin & Hl).
      apply after_title_incl in Hin. unfold conclusion_of in Hl.
      destruct (is_conclusion_header h && truthy b) eqn:E; [|destruct Hl].
      destruct Hl as [Hl | []]. exists h, b. split; [exact Hin|].
      split; [|now symmetry].
      apply andb_true_iff in E as [_ E]. now apply truthy_true_iff.
  - intros pre l1 blanks l2 Hm1 Hblank Hm2 st1 st2.
    assert (Hinv : loop_inv (run init_state pre))
      by (apply loop_inv_run, loop_inv_init).
    assert (Hp : current_p_lines st1 = []).
    { unfold st1. rewrite run_app. simpl run at 1.
      rewrite loop_body_marker by assumption.
      now apply marker_step_p_lines. }
    assert (Hidle : block_ready st1 = false).
    { unfold block_ready. rewrite Hp. apply andb_false_r. }
    assert (Hs : save_block st1 = parsed st1) by now apply save_block_idle.
    split; [exact Hp|]. split; [exact Hs|].
    unfold st2. rewrite run_app, (run_blank blanks st1 Hblank).
    simpl run. rewrite loop_body_marker by assumption.
    unfold marker_step. cbv zeta. rewrite Hs.
    destruct (negb (truthy (title (parsed st1)))); [split; reflexivity|].
    destruct (is_conclusion_header (header_of l2)); split; reflexivity.
Qed.

Lemma block_needs_body_witness :
  let st1 := run init_state
               ([lit "# Море"; lit "# Волны"; lit "Волны шумят."]
                ++ [lit "# Пусто"]) in
  let st2 := run st1 ([lit "   "] ++ [lit "# Берег"]) in
  sections (parsed st2) = [mk_section (lit "Волны") (lit "Волны шумят.")] /\
  conclusion (parsed st2) = [].
Proof.
  intros st1 st2.
  destruct (proj2 block_needs_body
              [lit "# Море"; lit "# Волны"; lit "Волны шумят."]
              (lit "# Пусто") [lit "   "] (lit "# Берег"))
    as (_ & _ & Hs & Hc).
  - vm_compute. reflexivity.
  - intros x [<- | []]. vm_compute. reflexivity.
  - vm_compute. reflexivity.
  - split.
    + refine (eq_trans Hs _). vm_compute. reflexivity.
    + refine (eq_trans Hc _). vm_compute. reflexivity.
Defined.

(** C10: every entry of the parsed sections has a non-empty heading.  On a
    titled document, a marker line with nothing after the marker leaves an
    empty current heading, which counts as no heading: the text lines after
    it are dropped and closing the block adds nothing. *)
Theorem section_headings_not_empty :
  (forall raw_text : str,
     exists d,
       clean_and_parse_qwen_output raw_text = Return d /\
       Forall (fun s => h2 s <> []) (sections d)) /\
  (forall (pre : list str) (l : str) (body : list str),
     truthy (title (parsed (run init_state pre))) = true ->
     is_marker l = true ->
     header_of l = [] ->
     (forall x, In x body -> is_text x = true) ->
     let st := run init_state pre in
     let st1 := loop_body st l in
     st1 = mk_state (save_block st) (Some []) [] false /\
     h2_truthy (current_h2 st1) = false /\
     run st1 body = st1 /\
     save_block (run st1 body) = save_block st).
Proof.
  split.
  - intros raw_text. rewrite parse_closed_form. cbv zeta.
    eexists. split; [reflexivity|]. cbn [sections].
    apply Forall_forall. intros s Hs.
    apply in_flat_map in Hs as ([h b] & _ & Hs). unfold section_of in Hs.
    destruct (negb (is_conclusion_header h) && truthy h && truthy b) eqn:E;
      [|destruct Hs].
    destruct Hs as [<- | []]. simpl.
    apply andb_true_iff in E as [E _]. apply andb_true_iff in E as [_ E].
    now apply truthy_true_iff.
  - intros pre l body Ht Hm Hh Hbody st st1.
    change (truthy (title (parsed st)) = true) in Ht.
    assert (Hinv : loop_inv st) by (apply loop_inv_run, loop_inv_init).
    assert (H1 : st1 = mk_state (save_block st) (Some []) [] false).
    { unfold st1. rewrite loop_body_marker by assumption. rewrite Hh.
      unfold marker_step. cbv zeta.
      rewrite (p_lines_reset st Hinv), title_save_block, Ht. reflexivity. }
    assert (H2 : run st1 body = st1).
    { rewrite run_text by assumption. rewrite H1. reflexivity. }
    split; [exact H1|]. split; [now rewrite H1|]. split; [exact H2|].
    rewrite H2, H1. reflexivity.
Qed.

Lemma section_headings_not_empty_witness :
  let st := run init_state [lit "# Море"] in
  let st1 := loop_body st (lit "#") in
  run st1 [lit "Потерянный текст."] = st1 /\
  save_block (run st1 [lit "Потерянный текст."]) = mk_parsed (lit "Море") [] [].
Proof.
  intros st st1.
  destruct (proj2 section_headings_not_empty
              [lit "# Море"] (lit "#") [lit "Потерянный текст."])
    as (_ & _ & Hrun & Hsave).
  - vm_compute. reflexivity.
  - vm_compute. reflexivity.
  - vm_compute. reflexivity.
  - intros x [<- | []]. vm_compute. reflexivity.
  - split; [exact Hrun|]. refine (eq_trans Hsave _). vm_compute. reflexivity.
Defined.

(* ================================================================== *)
(** * Inputs without structure *)
(* ================================================================== *)

(** C7: when no line of the raw text, once trimmed, starts with "#", the
    parser returns the all-empty document. *)
Theorem no_marker_all_empty (raw_text : str) :
  (forall l, In l (split_nl raw_text) -> startswith (strip l) (lit "#") = false) ->
  clean_and_parse_qwen_output raw_text = Return (mk_parsed [] [] []).
Proof.
  intros Hraw. rewrite parse_run.
  rewrite (run_no_marker (split_nl (strip raw_text)) init_state).
  - reflexivity.
  - reflexivity.
  - apply strip_markers. exact Hraw.
Qed.

Lemma no_marker_all_empty_witness :
  clean_and_parse_qwen_output raw_no_marker = Return (mk_parsed [] [] []).
Proof.
  apply (no_marker_all_empty raw_no_marker).
  intros l Hl. vm_compute in Hl.
  destruct Hl as [<- | [<- | []]]; vm_compute; reflexivity.
Defined.

(** C8: the parser raises on no input: it always returns a document.  The
    one exception met inside, [StopIteration] when no line is a marker line,
    is caught, and the document returned is then the all-empty one. *)
Theorem parser_never_raises (raw_text : str) :
  exists d,
    clean_and_parse_qwen_output raw_text = Return d /\
    match next_hash 0 (split_nl (strip raw_text)) with
    | Raise _ => d = mk_parsed [] [] []
    | Return _ => True
    end.
Proof.
  rewrite parse_run. eexists. split; [reflexivity|].
  pose proof (next_hash_spec (split_nl (strip raw_text)) 0) as Hn.
  destruct (next_hash 0 (split_nl (strip raw_text))) as [j | e]; [exact I|].
  destruct Hn as [_ Hall].
  now rewrite (run_no_marker (split_nl (strip raw_text)) init_state).
Qed.

(* ================================================================== *)
(** * Rendering *)
(* ================================================================== *)

Section Render.

Lemma file_eqb_refl (f : file_name) : file_eqb f f = true.
Proof. unfold file_eqb. destruct (list_eq_dec N.eq_dec f f); congruence. Qed.

Lemma utf8_encode_cp_scalar (c : N) :
  is_scalar c = true -> exists b, utf8_encode_cp c = Some b.
Proof.
  unfold is_scalar, utf8_encode_cp. intros H.
  assert (Hs : c < 0xD800 \/ (0xDFFF < c /\ c < 0x110000)).
  { apply orb_true_iff in H as [H | H].
    - left. now apply N.ltb_lt.
    - right. apply andb_true_iff in H as [Ha Hb].
      split; now apply N.ltb_lt. }
  clear H.
  destruct (N.ltb_spec c 0x80); [eexists; reflexivity|].
  destruct (N.ltb_spec c 0x800); [eexists; reflexivity|].
  destruct (N.ltb_spec c 0x10000).
  - destruct ((0xD800 <=? c) && (c <=? 0xDFFF)) eqn:E; [|eexists; reflexivity].
    apply andb_true_iff in E as [E1 E2].
    apply N.leb_le in E1, E2. lia.
  - destruct (N.ltb_spec c 0x110000); [eexists; reflexivity|]. lia.
Qed.

Lemma utf8_encode_valid (s : str) :
  valid_text s = true -> exists data, utf8_encode s = Some data.
Proof.
  induction s as [|c s IH]; simpl; [now exists []|].
  intros H. apply andb_true_iff in H as [Hc Hs].
  destruct (utf8_encode_cp_scalar c Hc) as [b ->].
  destruct (IH Hs) as [bs ->]. now eexists.
Qed.

Lemma valid_text_app (a b : str) :
  valid_text (a ++ b) = valid_text a && valid_text b.
Proof. apply forallb_app. Qed.

Lemma valid_lstrip (s : str) : valid_text s = true -> valid_text (lstrip s) = true.
Proof.
  induction s as [|c s IH]; [trivial|]. intros H. simpl.
  destruct (isspace c); [|exact H].
  apply IH. simpl in H. now apply andb_true_iff in H as [_ H].
Qed.

Lemma valid_strip (s : str) : valid_text s = true -> valid_text (strip s) = true.
Proof.
  intros H. unfold strip, rstrip, valid_text. rewrite forallb_rev.
  apply valid_lstrip. unfold valid_text. rewrite forallb_rev.
  now apply valid_lstrip.
Qed.

Lemma valid_skipn (n : nat) (s : str) :
  valid_text s = true -> valid_text (skipn n s) = true.
Proof.
  revert s. induction n as [|n IH]; intros s H; [exact H|].
  destruct s as [|c s]; [exact H|]. simpl. apply IH.
  simpl in H. now apply andb_true_iff in H as [_ H].
Qed.

Lemma valid_replace1 (old new s : str) :
  valid_text new = true -> valid_text s = true ->
  valid_text (replace1 old new s) = true.
Proof.
  intros Hn. induction s as [|c s IH]; intros Hs; cbn [replace1].
  - destruct (startswith [] old); [|reflexivity].
    rewrite valid_text_app, Hn. now rewrite valid_skipn.
  - destruct (startswith (c :: s) old).
    + rewrite valid_text_app, Hn. now rewrite valid_skipn.
    + simpl in *. apply andb_true_iff in Hs as [Hc Hs].
      rewrite Hc. now apply IH.
Qed.

Lemma valid_sections_html (secs : list section_dict) (html : str) :
  valid_text html = true -> forallb valid_section secs = true ->
  valid_text (fold_left html_section secs html) = true.
Proof.
  revert html. induction secs as [|s secs IH]; intros html Hh Hs; [exact Hh|].
  simpl in Hs. apply andb_true_iff in Hs as [Hs Hrest].
  apply andb_true_iff in Hs as [H2 Hp].
  simpl. apply IH; [|exact Hrest].
  unfold html_section. rewrite !valid_text_app, Hh, H2, Hp. reflexivity.
Qed.

Lemma valid_html_text (d : parsed_dict) :
  valid_doc d = true -> valid_text (html_text d) = true.
Proof.
  unfold valid_doc. intros H. apply andb_true_iff in H as [H Hc].
  apply andb_true_iff in H as [Ht Hs].
  unfold html_text. cbv zeta. rewrite valid_text_app.
  apply andb_true_iff. split; [|reflexivity].
  assert (Hsec : valid_text (fold_left html_section (sections d)
                               (html_shell (title d))) = true).
  { apply valid_sections_html; [|exact Hs].
    unfold html_shell. rewrite !valid_text_app, Ht. reflexivity. }
  unfold html_conclusion. destruct (truthy (conclusion d)); [|exact Hsec].
  rewrite !valid_text_app, Hsec.
  unfold conclusion_text. rewrite valid_strip; [reflexivity|].
  now apply valid_replace1.
Qed.

Example utf8_encode_sample :
  utf8_encode (lit "Вывод: 5 €") =
  Some (map N_of_ascii (list_ascii_of_string "Вывод: 5 €")).
Proof. vm_compute. reflexivity. Qed.

End Render.

(* ================================================================== *)
(** * Further properties of the parser: white space and noise *)
(* ================================================================== *)

Section Whitespace.

Lemma strip_of_space (s : str) : forallb isspace s = true -> strip s = [].
Proof. intros H. unfold strip. now rewrite lstrip_all_space. Qed.

Lemma lstrip_head (s : str) (c : N) (t : str) :
  lstrip s = c :: t -> isspace c = false.
Proof.
  induction s as [|a s IH]; simpl; [discriminate|].
  destruct (isspace a) eqn:Ea; [exact IH|].
  intros H. injection H as <- _. exact Ea.
Qed.

Lemma lstrip_idem (s : str) : lstrip (lstrip s) = lstrip s.
Proof.
  induction s as [|a s IH]; simpl; [reflexivity|].
  destruct (isspace a) eqn:Ea; [exact IH|]. simpl. now rewrite Ea.
Qed.

Lemma rstrip_idem (s : str) : rstrip (rstrip s) = rstrip s.
Proof. unfold rstrip. now rewrite rev_involutive, lstrip_idem. Qed.

Lemma lstrip_rstrip_lstrip (s : str) :
  lstrip (rstrip (lstrip s)) = rstrip (lstrip s).
Proof.
  destruct (lstrip s) as [|c t] eqn:E; [reflexivity|].
  pose proof (lstrip_head s c t E) as Hc.
  rewrite rstrip_cons. simpl forallb. rewrite Hc. simpl. now rewrite Hc.
Qed.

Lemma strip_idem (s : str) : strip (strip s) = strip s.
Proof.
  unfold strip. now rewrite lstrip_rstrip_lstrip, rstrip_idem.
Qed.

Lemma rstrip_app_space (x w : str) :
  forallb isspace w = true -> rstrip (x ++ w) = rstrip x.
Proof.
  intros Hw. unfold rstrip.
  now rewrite rev_app_distr, lstrip_app, forallb_rev, Hw.
Qed.

Lemma strip_app_space (x w : str) :
  forallb isspace w = true -> strip (x ++ w) = strip x.
Proof.
  intros Hw. unfold strip. rewrite lstrip_app.
  destruct (forallb isspace x) eqn:Ex.
  - now rewrite (lstrip_all_space w Hw), (lstrip_all_space x Ex).
  - now apply rstrip_app_space.
Qed.

Lemma strip_space_app (w x : str) :
  forallb isspace w = true -> strip (w ++ x) = strip x.
Proof. intros Hw. unfold strip. now rewrite lstrip_app, Hw. Qed.

Lemma strip_cons_space (c : N) (l : str) :
  isspace c = true -> strip (c :: l) = strip l.
Proof. intros Hc. unfold strip. simpl. now rewrite Hc. Qed.

(** The loop sees a line only through its stripped form. *)
Lemma loop_body_strip (st : loop_state) (a b : str) :
  strip a = strip b -> loop_body st a = loop_body st b.
Proof. intros H. unfold loop_body. cbv zeta. now rewrite H. Qed.

Lemma loop_body_nil (st : loop_state) : loop_body st [] = st.
Proof. reflexivity. Qed.

Lemma run_lstrip (s : str) (st : loop_state) :
  run st (split_nl (lstrip s)) = run st (split_nl s).
Proof.
  induction s as [|c s IH]; [reflexivity|].
  simpl lstrip. destruct (isspace c) eqn:Hc; [|reflexivity].
  rewrite IH. simpl split_nl. destruct (c =? LF).
  - now rewrite run_cons, loop_body_nil.
  - pose proof (split_nl_not_nil s) as Hn.
    destruct (split_nl s) as [|l0 ls]; [contradiction|].
    rewrite !run_cons.
    now rewrite (loop_body_strip st (c :: l0) l0 (strip_cons_space c l0 Hc)).
Qed.

Lemma run_glue_space (xs ys : list str) (st : loop_state) :
  xs <> [] ->
  (forall y, In y ys -> forallb isspace y = true) ->
  run st (glue xs ys) = run st xs.
Proof.
  intros Hxs Hys. revert st.
  induction xs as [|x xs IH]; intros st; [contradiction|].
  destruct xs as [|x1 xs].
  - destruct ys as [|y ys]; [reflexivity|].
    simpl glue. rewrite !run_cons.
    rewrite (loop_body_strip st (x ++ y) x)
      by (apply strip_app_space, Hys; now left).
    rewrite run_blank; [reflexivity|].
    intros z Hz. unfold is_blank.
    rewrite strip_of_space; [reflexivity|]. apply Hys. now right.
  - change (glue (x :: x1 :: xs) ys) with (x :: glue (x1 :: xs) ys).
    rewrite !run_cons. apply IH. discriminate.
Qed.

Lemma run_rstrip (s : str) (st : loop_state) :
  run st (split_nl (rstrip s)) = run st (split_nl s).
Proof.
  destruct (rstrip_decomp s) as (w & Hd & Hw).
  rewrite Hd at 2. rewrite split_nl_app. symmetry.
  apply run_glue_space; [apply split_nl_not_nil|].
  intros y Hy. apply forallb_forall. intros c Hc.
  apply (proj1 (forallb_forall isspace w) Hw).
  now apply (split_nl_chars w y c).
Qed.

(** Stripping the whole text first changes nothing for the loop. *)
Lemma run_strip (s : str) (st : loop_state) :
  run st (split_nl (strip s)) = run st (split_nl s).
Proof. unfold strip. now rewrite run_rstrip, run_lstrip. Qed.

(** The parser is the loop over the lines of the raw text as it is. *)
Lemma parse_lines (raw_text : str) :
  clean_and_parse_qwen_output raw_text =
  Return (save_block (run init_state (split_nl raw_text))).
Proof. now rewrite parse_run, run_strip. Qed.

(** The lines as the loop sees them. *)
Lemma run_seen_lines (lines : list str) (st : loop_state) :
  run st lines =
  run st (filter (fun l => truthy l) (map strip lines)).
Proof.
  revert st. induction lines as [|l lines IH]; intros st; [reflexivity|].
  rewrite run_cons. cbn [map filter].
  destruct (truthy (strip l)) eqn:E.
  - rewrite run_cons.
    rewrite (loop_body_strip st (strip l) l (strip_idem l)). apply IH.
  - rewrite loop_body_blank by (unfold is_blank; now rewrite E). apply IH.
Qed.

Lemma split_nl_lf (a b : str) :
  split_nl (a ++ LF :: b) = split_nl a ++ split_nl b.
Proof.
  induction a as [|c a IH]; [reflexivity|].
  simpl. rewrite IH. destruct (c =? LF); [reflexivity|].
  pose proof (split_nl_not_nil a) as Hn.
  destruct (split_nl a); [contradiction | reflexivity].
Qed.

(** Lines of the text with CR LF line ends: the same lines, with white
    space added at the end. *)
Lemma split_nl_crlf (s : str) :
  Forall2 (fun a b => exists w, forallb isspace w = true /\ a = b ++ w)
          (split_nl (to_crlf s)) (split_nl s).
Proof.
  induction s as [|c s IH].
  - constructor; [|constructor]. now exists [].
  - unfold to_crlf in *. cbn [flat_map]. destruct (c =? LF) eqn:Ec.
    + cbn [app split_nl]. rewrite Ec.
      change (CR =? LF) with false. change (LF =? LF) with true.
      constructor; [|exact IH]. now exists [CR].
    + cbn [app split_nl]. rewrite Ec.
      inversion IH as [|a b la lb (w & Hw & Hab) Hrest Ha Hb];
        [exfalso; eapply split_nl_not_nil; eauto|].
      constructor; [|exact Hrest]. exists w. split; [exact Hw|].
      now rewrite Hab.
Qed.

Lemma run_space_tails (la lb : list str) (st : loop_state) :
  Forall2 (fun a b => exists w, forallb isspace w = true /\ a = b ++ w) la lb ->
  run st la = run st lb.
Proof.
  intros H. revert st. induction H as [|a b la lb (w & Hw & ->) _ IH]; intros st;
    [reflexivity|].
  rewrite !run_cons.
  rewrite (loop_body_strip st (b ++ w) b (strip_app_space b w Hw)). apply IH.
Qed.

End Whitespace.

(** X1: the parsed document depends only on the lines as the loop sees
    them: the lines of the raw text, each stripped, the empty ones left out.
    White space around the text or around a line, and blank lines, never
    matter. *)
Theorem parse_depends_on_seen_lines (raw_text raw_text' : str) :
  filter (fun l => truthy l) (map strip (split_nl raw_text)) =
  filter (fun l => truthy l) (map strip (split_nl raw_text')) ->
  clean_and_parse_qwen_output raw_text = clean_and_parse_qwen_output raw_text'.
Proof.
  intros H. rewrite !parse_lines.
  rewrite (run_seen_lines (split_nl raw_text)).
  rewrite (run_seen_lines (split_nl raw_text')).
  now rewrite H.
Qed.

Lemma parse_depends_on_seen_lines_witness :
  clean_and_parse_qwen_output
    (NL ++ lit "   # Море  " ++ NL ++ NL ++ lit "# Волны" ++ NL ++
     lit "  Волны шумят.  " ++ NL ++ lit "   " ++ NL) =
  clean_and_parse_qwen_output
    (lit "# Море" ++ NL ++ lit "# Волны" ++ NL ++ lit "Волны шумят.").
Proof.
  apply parse_depends_on_seen_lines. vm_compute. reflexivity.
Defined.

(** X2: CR LF line ends are harmless: the text with every line feed
    preceded by a carriage return parses to the same document. *)
Theorem crlf_line_ends_harmless (raw_text : str) :
  clean_and_parse_qwen_output (to_crlf raw_text) =
  clean_and_parse_qwen_output raw_text.
Proof.
  rewrite !parse_lines.
  now rewrite (run_space_tails _ _ init_state (split_nl_crlf raw_text)).
Qed.

(** X3: lines before the first marker line are noise: a text of lines none
    of which is a marker line, put in front of a text, does not change the
    parsed document. *)
Theorem leading_noise_dropped (noise rest : str) :
  (forall l, In l (split_nl noise) -> startswith (strip l) (lit "#") = false) ->
  clean_and_parse_qwen_output (noise ++ LF :: rest) =
  clean_and_parse_qwen_output rest.
Proof.
  intros Hnoise. rewrite !parse_lines, split_nl_lf, run_app.
  now rewrite (run_no_marker (split_nl noise) init_state).
Qed.

Lemma leading_noise_dropped_witness :
  clean_and_parse_qwen_output
    (lit "Вот статья:" ++ LF :: raw_e2e) =
  clean_and_parse_qwen_output raw_e2e.
Proof.
  apply leading_noise_dropped.
  intros l Hl. vm_compute in Hl. destruct Hl as [<- | []].
  vm_compute. reflexivity.
Defined.

(* ================================================================== *)
(** * Further properties of the parser: the texts it returns *)
(* ================================================================== *)

Section Texts.

Lemma strip_nil_space (s : str) : strip s = [] -> forallb isspace s = true.
Proof.
  unfold strip, rstrip. intros H.
  assert (Hl : lstrip (rev (lstrip s)) = []).
  { destruct (lstrip (rev (lstrip s))) as [|z v]; [reflexivity|].
    exfalso. simpl in H. destruct (rev v); discriminate H. }
  apply lstrip_nil in Hl. rewrite forallb_rev in Hl.
  destruct (lstrip s) as [|c t] eqn:E; [now apply lstrip_nil|].
  pose proof (lstrip_head s c t E) as Hc.
  simpl in Hl. now rewrite Hc in Hl.
Qed.

Lemma strip_solid (l : str) : truthy (strip l) = true -> solid (strip l).
Proof.
  intros H. split; [now apply truthy_true_iff | apply strip_idem].
Qed.

Lemma solid_head (s : str) :
  solid s -> exists c t, s = c :: t /\ isspace c = false.
Proof.
  intros [Hne Hs]. unfold strip in Hs.
  destruct (lstrip s) as [|c t] eqn:E.
  - change (rstrip []) with (@nil N) in Hs. congruence.
  - pose proof (lstrip_head s c t E) as Hc.
    rewrite rstrip_cons in Hs. simpl forallb in Hs. rewrite Hc in Hs.
    simpl in Hs. exists c, (rstrip t). now split.
Qed.

Lemma solid_last (s : str) :
  solid s -> exists u z, s = u ++ [z] /\ isspace z = false.
Proof.
  intros [Hne Hs]. unfold strip, rstrip in Hs.
  destruct (lstrip (rev (lstrip s))) as [|z v] eqn:E.
  - simpl in Hs. congruence.
  - exists (rev v), z. split; [now rewrite <- Hs|].
    now apply (lstrip_head _ _ _ E).
Qed.

Lemma edges_solid (c z : N) (t u : str) (s : str) :
  s = c :: t -> isspace c = false ->
  s = u ++ [z] -> isspace z = false ->
  solid s.
Proof.
  intros Hs Hc Hl Hz. split; [rewrite Hs; discriminate|].
  unfold strip. assert (El : lstrip s = s) by (rewrite Hs; simpl; now rewrite Hc).
  rewrite El. unfold rstrip. rewrite Hl at 1. rewrite rev_app_distr.
  simpl. rewrite Hz. simpl. now rewrite rev_involutive.
Qed.

Lemma solid_join2 (a b : str) :
  solid a -> solid b -> solid (a ++ SPACE ++ b).
Proof.
  intros Ha Hb.
  destruct (solid_head a Ha) as (c & t & Ea & Hc).
  destruct (solid_last b Hb) as (u & z & Eb & Hz).
  apply (edges_solid c z (t ++ SPACE ++ b) (a ++ SPACE ++ u)).
  - now rewrite Ea.
  - exact Hc.
  - rewrite Eb. now rewrite <- !app_assoc.
  - exact Hz.
Qed.

(** Solid lines joined by single spaces: a solid text. *)
Lemma join_solid (ls : list str) :
  Forall solid ls -> ls <> [] -> solid (join SPACE ls).
Proof.
  induction ls as [|x ls IH]; intros Hall Hne; [contradiction|].
  inversion Hall as [|? ? Hx Hrest]; subst.
  destruct ls as [|y ls]; [exact Hx|].
  change (join SPACE (x :: y :: ls)) with (x ++ SPACE ++ join SPACE (y :: ls)).
  apply solid_join2; [exact Hx|]. apply IH; [exact Hrest | discriminate].
Qed.

(** On solid lines the last [strip] of a body is the identity. *)
Lemma body_text_join (b : list str) :
  Forall solid b -> body_text b = join SPACE b.
Proof.
  intros Hb. unfold body_text. destruct b as [|x b]; [reflexivity|].
  apply (join_solid (x :: b) Hb). discriminate.
Qed.

Lemma header_of_trimmed (l : str) : strip (header_of l) = header_of l.
Proof. unfold header_of. apply strip_idem. Qed.

Lemma blocks_tidy (lines : list str) :
  Forall solid (fst (blocks lines)) /\ Forall tidy_block (snd (blocks lines)).
Proof.
  induction lines as [|l lines [IHb IHbs]]; [split; constructor|].
  simpl blocks. destruct (blocks lines) as [b bs]. simpl in IHb, IHbs.
  destruct (is_blank l) eqn:Eb; [now split|].
  destruct (is_marker l).
  - split; [constructor|]. constructor; [|exact IHbs].
    split; [apply header_of_trimmed | exact IHb].
  - split; [|exact IHbs]. constructor; [|exact IHb].
    apply strip_solid. unfold is_blank in Eb. now apply negb_false_iff in Eb.
Qed.

Lemma after_title_tidy (bs : list block) :
  Forall tidy_block bs -> Forall tidy_block (after_title bs).
Proof.
  intros H. apply Forall_forall. intros bl Hbl.
  apply (proj1 (Forall_forall _ _) H). now apply after_title_incl.
Qed.

Lemma title_of_trimmed (bs : list block) :
  Forall tidy_block bs -> strip (title_of bs) = title_of bs.
Proof.
  induction bs as [|[h b] bs IH]; intros H; [reflexivity|].
  inversion H as [|? ? [Hh _] Hrest]; subst. simpl.
  destruct (truthy h); [exact Hh | now apply IH].
Qed.

Lemma section_of_joined (bs : list block) :
  Forall tidy_block bs ->
  flat_map section_of bs = flat_map joined_section_of bs.
Proof.
  induction bs as [|[h b] bs IH]; intros H; [reflexivity|].
  inversion H as [|? ? [_ Hb] Hrest]; subst. simpl in Hb.
  cbn [flat_map]. rewrite IH by exact Hrest. f_equal.
  unfold section_of, joined_section_of. now rewrite body_text_join.
Qed.

Lemma conclusion_of_joined (bs : list block) :
  Forall tidy_block bs ->
  flat_map conclusion_of bs = flat_map joined_conclusion_of bs.
Proof.
  induction bs as [|[h b] bs IH]; intros H; [reflexivity|].
  inversion H as [|? ? [_ Hb] Hrest]; subst. simpl in Hb.
  cbn [flat_map]. rewrite IH by exact Hrest. f_equal.
  unfold conclusion_of, joined_conclusion_of. now rewrite body_text_join.
Qed.

End Texts.

(** X4: every text of the parsed document is trimmed, and no section is
    empty-handed: the title has no white space at either end, every section
    has a non-empty heading and a non-empty body without white space at
    either end, and the conclusion is empty or such a text. *)
Theorem parsed_texts_solid (raw_text : str) :
  exists d,
    clean_and_parse_qwen_output raw_text = Return d /\
    strip (title d) = title d /\
    Forall (fun s => solid (h2 s) /\ solid (p s)) (sections d) /\
    (conclusion d = [] \/ solid (conclusion d)).
Proof.
  rewrite parse_closed_form. cbv zeta.
  set (bs := snd (blocks (split_nl (strip raw_text)))).
  assert (Hbs : Forall tidy_block bs) by apply blocks_tidy.
  pose proof (after_title_tidy bs Hbs) as Hafter.
  eexists. split; [reflexivity|]. cbn [title sections conclusion].
  split; [now apply title_of_trimmed|]. split.
  - apply Forall_forall. intros s Hs.
    apply in_flat_map in Hs as ([h b] & Hin & Hs).
    apply (proj1 (Forall_forall _ _) Hafter) in Hin as [Hh Hb].
    simpl in Hh, Hb. unfold section_of in Hs.
    destruct (negb (is_conclusion_header h) && truthy h && truthy b) eqn:E;
      [|destruct Hs].
    destruct Hs as [<- | []]. simpl.
    apply andb_true_iff in E as [E Eb]. apply andb_true_iff in E as [_ Eh].
    apply truthy_true_iff in Eh, Eb. split; [now split|].
    rewrite body_text_join by exact Hb. now apply join_solid.
  - set (L := flat_map conclusion_of (after_title bs)).
    destruct L as [|x L'] eqn:EL; [now left|]. right.
    assert (Hin : In (last L []) L) by (apply last_in; rewrite EL; discriminate).
    rewrite <- EL. unfold L at 2 in Hin.
    apply in_flat_map in Hin as ([h b] & Hin & Hl).
    apply (proj1 (Forall_forall _ _) Hafter) in Hin as [_ Hb].
    simpl in Hb. unfold conclusion_of in Hl.
    destruct (is_conclusion_header h && truthy b) eqn:E; [|destruct Hl].
    destruct Hl as [Hl | []]. rewrite <- Hl.
    apply andb_true_iff in E as [_ Eb]. apply truthy_true_iff in Eb.
    rewrite body_text_join by exact Hb. now apply join_solid.
Qed.

Lemma parse_joined (raw_text : str) :
  let bs := snd (blocks (split_nl raw_text)) in
  clean_and_parse_qwen_output raw_text =
  Return (mk_parsed (title_of bs)
                    (flat_map joined_section_of (after_title bs))
                    (last (flat_map joined_conclusion_of (after_title bs)) [])).
Proof.
  intros bs. rewrite parse_lines.
  rewrite save_block_run by apply loop_inv_init. fold bs.
  rewrite fold_emit_untitled by reflexivity.
  assert (Hafter : Forall tidy_block (after_title bs))
    by apply after_title_tidy, blocks_tidy.
  now rewrite section_of_joined, conclusion_of_joined.
Qed.

(** X5: the parser in closed form, on the lines of the raw text as it is.
    The title is the first non-empty header text.  The sections are, in the
    order of the text, the blocks after the title block whose header text is
    not empty and does not match the conclusion keyword and which have text
    lines; the body is exactly these lines, stripped, joined by single
    spaces.  The conclusion is the body of the last conclusion block with
    text lines. *)
Theorem parse_joined_closed_form (raw_text : str) :
  let bs := snd (blocks (split_nl raw_text)) in
  clean_and_parse_qwen_output raw_text =
  Return (mk_parsed (title_of bs)
                    (flat_map joined_section_of (after_title bs))
                    (last (flat_map joined_conclusion_of (after_title bs)) [])).
Proof. exact (parse_joined raw_text). Qed.

Section Validity.

Lemma valid_lines (s : str) :
  valid_text s = true ->
  Forall (fun l => valid_text l = true) (split_nl s).
Proof.
  intros Hs. apply Forall_forall. intros l Hl.
  apply forallb_forall. intros c Hc.
  apply (proj1 (forallb_forall is_scalar s) Hs).
  now apply (split_nl_chars s l c).
Qed.

Lemma valid_join (ls : list str) :
  Forall (fun l => valid_text l = true) ls ->
  valid_text (join SPACE ls) = true.
Proof.
  induction ls as [|x ls IH]; intros H; [reflexivity|].
  inversion H as [|? ? Hx Hrest]; subst.
  destruct ls as [|y ls]; [exact Hx|].
  change (join SPACE (x :: y :: ls)) with (x ++ SPACE ++ join SPACE (y :: ls)).
  rewrite !valid_text_app, Hx, (IH Hrest). reflexivity.
Qed.

Lemma valid_header_of (l : str) :
  valid_text l = true -> valid_text (header_of l) = true.
Proof.
  intros H. unfold header_of. now apply valid_strip, valid_skipn, valid_strip.
Qed.

Lemma blocks_valid (lines : list str) :
  Forall (fun l => valid_text l = true) lines ->
  Forall (fun l => valid_text l = true) (fst (blocks lines)) /\
  Forall (fun bl : block =>
            valid_text (fst bl) = true /\
            Forall (fun l => valid_text l = true) (snd bl))
         (snd (blocks lines)).
Proof.
  induction lines as [|l lines IH]; intros H; [split; constructor|].
  inversion H as [|? ? Hl Hrest]; subst.
  destruct (IH Hrest) as [IHb IHbs].
  simpl blocks. destruct (blocks lines) as [b bs]. simpl in IHb, IHbs.
  destruct (is_blank l); [now split|].
  destruct (is_marker l).
  - split; [constructor|]. constructor; [|exact IHbs].
    split; [now apply valid_header_of | exact IHb].
  - split; [|exact IHbs]. constructor; [|exact IHb]. now apply valid_strip.
Qed.

Lemma valid_parsed (raw_text : str) :
  valid_text raw_text = true ->
  exists d, clean_and_parse_qwen_output raw_text = Return d /\
            valid_doc d = true.
Proof.
  intros Hraw. rewrite parse_closed_form. cbv zeta.
  set (bs := snd (blocks (split_nl (strip raw_text)))).
  assert (Hbs : Forall (fun bl : block =>
                          valid_text (fst bl) = true /\
                          Forall (fun l => valid_text l = true) (snd bl)) bs)
    by now apply blocks_valid, valid_lines, valid_strip.
  assert (Hafter : forall bl, In bl (after_title bs) ->
            valid_text (fst bl) = true /\
            Forall (fun l => valid_text l = true) (snd bl)).
  { intros bl Hbl. apply (proj1 (Forall_forall _ _) Hbs).
    now apply after_title_incl. }
  eexists. split; [reflexivity|].
  unfold valid_doc. cbn [title sections conclusion].
  apply andb_true_iff. split; [apply andb_true_iff; split|].
  - clear Hafter. induction bs as [|[h b] bs IH]; [reflexivity|].
    inversion Hbs as [|? ? [Hh _] Hrest]; subst. simpl in *.
    destruct (truthy h); [exact Hh | now apply IH].
  - apply forallb_forall. intros s Hs.
    apply in_flat_map in Hs as ([h b] & Hin & Hs).
    destruct (Hafter _ Hin) as [Hh Hb]. simpl in Hh, Hb.
    unfold section_of in Hs.
    destruct (negb (is_conclusion_header h) && truthy h && truthy b);
      [|destruct Hs].
    destruct Hs as [<- | []]. unfold valid_section, body_text. simpl.
    now rewrite Hh, valid_strip by now apply valid_join.
  - set (L := flat_map conclusion_of (after_title bs)).
    destruct L as [|x L'] eqn:EL; [reflexivity|].
    assert (Hin : In (last L []) L) by (apply last_in; rewrite EL; discriminate).
    rewrite <- EL. unfold L at 2 in Hin.
    apply in_flat_map in Hin as ([h b] & Hin & Hl).
    destruct (Hafter _ Hin) as [_ Hb]. simpl in Hb.
    unfold conclusion_of in Hl.
    destruct (is_conclusion_header h && truthy b); [|destruct Hl].
    destruct Hl as [Hl | []]. rewrite <- Hl.
    now apply valid_strip, valid_join.
Qed.

End Validity.

(* ================================================================== *)
(** * Further properties of the renderer *)
(* ================================================================== *)

Section Layout.





Lemma fold_html_section (secs : list section_dict) (html : str) :
  fold_left html_section secs html = html ++ flat_map render_section secs.
Proof.
  revert html. induction secs as [|s secs IH]; intros html.
  - cbn [fold_left flat_map]. now rewrite app_nil_r.
  - cbn [fold_left flat_map]. rewrite IH.
    change (html_section html s) with (html ++ render_section s).
    now rewrite <- app_assoc.
Qed.

(** The HTML text, piece by piece. *)
Lemma html_layout (d : parsed_dict) :
  html_text d =
  html_shell (title d) ++ flat_map render_section (sections d)
  ++ render_conclusion (conclusion d) ++ html_tail.
Proof.
  unfold html_text, html_conclusion, render_conclusion. cbv zeta.
  rewrite fold_html_section.
  destruct (truthy (conclusion d)); now rewrite <- !app_assoc.
Qed.

End Layout.




(* ================================================================== *)
(** * Properties of parse_input *)
(* ================================================================== *)

Section Words.

Lemma split_ws_space (c : N) (s : str) :
  isspace c = true -> split_ws (c :: s) = split_ws s.
Proof. intros H. simpl. now rewrite H. Qed.

Lemma split_ws_all_space (w : str) :
  forallb isspace w = true -> split_ws w = [].
Proof.
  induction w as [|c w IH]; [reflexivity|]. intros H.
  simpl in H. apply andb_true_iff in H as [Hc Hw].
  rewrite split_ws_space by exact Hc. now apply IH.
Qed.

Lemma wordlike_cons (c : N) (w : str) :
  isspace c = false -> wordlike w -> wordlike (c :: w).
Proof.
  intros Hc [_ Hw]. split; [discriminate|]. simpl. now rewrite Hc, Hw.
Qed.

Lemma wordlike_single (c : N) : isspace c = false -> wordlike [c].
Proof. intros Hc. split; [discriminate|]. simpl. now rewrite Hc. Qed.

(** The words have no white space and are not empty. *)
Lemma split_ws_wordlike (s : str) : Forall wordlike (split_ws s).
Proof.
  induction s as [|c s IH]; [constructor|].
  cbn [split_ws]. destruct (isspace c) eqn:Hc; [exact IH|].
  destruct s as [|c' s'].
  - constructor; [now apply wordlike_single | constructor].
  - destruct (isspace c') eqn:Hc'.
    + constructor; [now apply wordlike_single | exact IH].
    + destruct (split_ws (c' :: s')) as [|w ws].
      * constructor; [now apply wordlike_single | constructor].
      * inversion IH as [|? ? Hw Hws]; subst.
        constructor; [now apply wordlike_cons | exact Hws].
Qed.

Lemma split_ws_lstrip (s : str) : split_ws (lstrip s) = split_ws s.
Proof.
  induction s as [|c s IH]; [reflexivity|].
  simpl lstrip. destruct (isspace c) eqn:Hc; [|reflexivity].
  now rewrite IH, split_ws_space.
Qed.

Lemma split_ws_app_space (y w : str) :
  forallb isspace w = true -> split_ws (y ++ w) = split_ws y.
Proof.
  intros Hw. induction y as [|c y IH].
  - simpl. now apply split_ws_all_space.
  - cbn [app split_ws]. destruct (isspace c); [exact IH|].
    destruct y as [|c' y'].
    + cbn [app]. destruct w as [|c'' w']; [reflexivity|].
      simpl in Hw. apply andb_true_iff in Hw as [Hc'' Hw'].
      rewrite Hc'', split_ws_space by exact Hc''.
      now rewrite split_ws_all_space.
    + cbn [app] in *. destruct (isspace c'); now rewrite IH.
Qed.

(** The [strip()] before [split()] changes nothing. *)
Lemma split_ws_strip (s : str) : split_ws (strip s) = split_ws s.
Proof.
  unfold strip. destruct (rstrip_decomp (lstrip s)) as (w & Hd & Hw).
  rewrite <- (split_ws_lstrip s). rewrite Hd at 2.
  now rewrite split_ws_app_space.
Qed.

Lemma wordlike_parts (a : N) (w : str) :
  wordlike (a :: w) ->
  isspace a = false /\ forallb (fun c => negb (isspace c)) w = true.
Proof.
  intros [_ H]. simpl in H. apply andb_true_iff in H as [Ha Hw].
  split; [now apply negb_true_iff | exact Hw].
Qed.

Lemma split_ws_word_sep (w : str) (c : N) (t : str) :
  wordlike w -> isspace c = true ->
  split_ws (w ++ c :: t) = w :: split_ws t.
Proof.
  intros Hw Hc. induction w as [|a w IH]; [destruct Hw; contradiction|].
  destruct (wordlike_parts a w Hw) as [Ha Hrest].
  cbn [app split_ws]. rewrite Ha. destruct w as [|a2 w'].
  - cbn [app]. now rewrite Hc, split_ws_space.
  - cbn [app] in *.
    assert (Hw2 : wordlike (a2 :: w')) by (split; [discriminate | exact Hrest]).
    destruct (wordlike_parts a2 w' Hw2) as [Ha2 _].
    now rewrite Ha2, (IH Hw2).
Qed.

Lemma split_ws_word (w : str) : wordlike w -> split_ws w = [w].
Proof.
  intros Hw. induction w as [|a w IH]; [destruct Hw; contradiction|].
  destruct (wordlike_parts a w Hw) as [Ha Hrest].
  cbn [split_ws]. rewrite Ha. destruct w as [|a2 w']; [reflexivity|].
  assert (Hw2 : wordlike (a2 :: w')) by (split; [discriminate | exact Hrest]).
  destruct (wordlike_parts a2 w' Hw2) as [Ha2 _].
  now rewrite Ha2, (IH Hw2).
Qed.

(** Round trip: words joined by single spaces split into the same words. *)
Lemma split_ws_join (ws : list str) :
  Forall wordlike ws -> split_ws (join SPACE ws) = ws.
Proof.
  induction ws as [|x ws IH]; intros H; [reflexivity|].
  inversion H as [|? ? Hx Hrest]; subst.
  destruct ws as [|y ws]; [now apply split_ws_word|].
  change (join SPACE (x :: y :: ws)) with (x ++ 32 :: join SPACE (y :: ws)).
  rewrite split_ws_word_sep by (exact Hx || reflexivity).
  now rewrite (IH Hrest).
Qed.

Lemma wordlike_solid (w : str) : wordlike w -> solid w.
Proof.
  intros [Hne Hw]. destruct w as [|c t]; [contradiction|].
  destruct (exists_last Hne) as (u & z & Hz).
  apply (edges_solid c z t u); [reflexivity | | exact Hz |].
  - simpl in Hw. apply andb_true_iff in Hw as [Hc _].
    now apply negb_true_iff.
  - apply negb_true_iff.
    apply (proj1 (forallb_forall _ _) Hw). rewrite Hz.
    apply in_or_app. right. now left.
Qed.

Lemma join_chars (ws : list str) (c : N) :
  In c (join SPACE ws) -> c = 32 \/ exists w, In w ws /\ In c w.
Proof.
  induction ws as [|x ws IH]; [intros []|].
  destruct ws as [|y ws].
  - intros Hc. right. exists x. split; [now left | exact Hc].
  - change (join SPACE (x :: y :: ws)) with (x ++ 32 :: join SPACE (y :: ws)).
    intros Hc. apply in_app_or in Hc as [Hc | [Hc | Hc]].
    + right. exists x. split; [now left | exact Hc].
    + left. now symmetry.
    + destruct (IH Hc) as [-> | (w & Hw & Hcw)]; [now left|].
      right. exists w. split; [now right | exact Hcw].
Qed.

Lemma join_words_no_lf (ws : list str) :
  Forall wordlike ws -> ~ In LF (join SPACE ws).
Proof.
  intros Hws Hin. destruct (join_chars ws LF Hin) as [E | (w & Hw & Hc)];
    [discriminate E|].
  destruct (proj1 (Forall_forall _ _) Hws w Hw) as [_ Hspace].
  pose proof (proj1 (forallb_forall _ _) Hspace LF Hc) as H.
  discriminate H.
Qed.

(** [parse_input] without the redundant [strip()]. *)
Lemma parse_input_words (args_prompt : str) (args_output : option str) :
  parse_input args_prompt args_output =
  if Nat.eqb (List.length (split_ws args_prompt)) 5
  then Accepted (join SPACE (split_ws args_prompt))
                (match args_output with Some o => o | None => DEFAULT_OUTPUT end)
  else ValueError (value_error_message (List.length (split_ws args_prompt))).
Proof.
  unfold parse_input. cbv zeta. rewrite split_ws_strip.
  now destruct (Nat.eqb (List.length (split_ws args_prompt)) 5).
Qed.

Lemma accepted_keywords (args_prompt : str) (args_output : option str)
    (keywords : str) (output_path : path) :
  parse_input args_prompt args_output = Accepted keywords output_path ->
  List.length (split_ws args_prompt) = 5%nat /\
  keywords = join SPACE (split_ws args_prompt) /\
  output_path = match args_output with Some o => o | None => DEFAULT_OUTPUT end.
Proof.
  rewrite parse_input_words.
  destruct (Nat.eqb (List.length (split_ws args_prompt)) 5) eqn:E;
    [|discriminate].
  intros H. injection H as <- <-. apply Nat.eqb_eq in E. now repeat split.
Qed.

End Words.

(** X8: [parse_input] accepts exactly the prompts of five words, a word
    being a run of code points without white space: with five words it
    returns them joined by single spaces, with any other number it raises
    [ValueError] with the message that names the number.  White space
    around the prompt does not matter. *)
Theorem parse_input_five_words (args_prompt : str) (args_output : option str) :
  (List.length (split_ws args_prompt) = 5%nat ->
   parse_input args_prompt args_output =
   Accepted (join SPACE (split_ws args_prompt))
            (match args_output with Some o => o | None => DEFAULT_OUTPUT end)) /\
  (List.length (split_ws args_prompt) <> 5%nat ->
   parse_input args_prompt args_output =
   ValueError (value_error_message (List.length (split_ws args_prompt)))) /\
  (forall w1 w2 : str,
     forallb isspace w1 = true -> forallb isspace w2 = true ->
     parse_input (w1 ++ args_prompt ++ w2) args_output =
     parse_input args_prompt args_output).
Proof.
  split; [|split].
  - intros H. rewrite parse_input_words, H. reflexivity.
  - intros H. rewrite parse_input_words.
    apply Nat.eqb_neq in H. now rewrite H.
  - intros w1 w2 H1 H2. rewrite !parse_input_words.
    assert (E : split_ws (w1 ++ args_prompt ++ w2) = split_ws args_prompt).
    { rewrite <- (split_ws_lstrip (w1 ++ args_prompt ++ w2)).
      rewrite lstrip_app, H1, split_ws_lstrip.
      now apply split_ws_app_space. }
    now rewrite E.
Qed.

Lemma parse_input_five_words_witness :
  parse_input (lit "волна корабль") None =
    ValueError (value_error_message
                  (List.length (split_ws (lit "волна корабль")))) /\
  parse_input (lit "  " ++ lit "волна корабль плыть приключение сокровища"
               ++ NL) None =
    parse_input (lit "волна корабль плыть приключение сокровища") None.
Proof.
  split.
  - refine (proj1 (proj2 (parse_input_five_words (lit "волна корабль") None)) _).
    vm_compute. discriminate.
  - refine (proj2 (proj2 (parse_input_five_words
                           (lit "волна корабль плыть приключение сокровища")
                           None)) (lit "  ") NL _ _);
      vm_compute; reflexivity.
Defined.

Example value_error_message_two :
  value_error_message 2 =
  lit "Ошибка: нужно ровно 5 слов, получено 2." ++ NL ++
  lit "Пример: --prompt 'волна корабль плыть приключение сокровища'".
Proof. vm_compute. reflexivity. Qed.

(** X9: the keywords [parse_input] returns are in normal form: five words
    without white space joined by single spaces, so with no white space at
    either end and no line feed; splitting them gives the words back, and
    [parse_input] on the keywords returns the same keywords. *)
Theorem keywords_normal_form
    (args_prompt : str) (args_output : option str)
    (keywords : str) (output_path : path) :
  parse_input args_prompt args_output = Accepted keywords output_path ->
  Forall wordlike (split_ws args_prompt) /\
  List.length (split_ws args_prompt) = 5%nat /\
  keywords = join SPACE (split_ws args_prompt) /\
  split_ws keywords = split_ws args_prompt /\
  strip keywords = keywords /\
  ~ In LF keywords /\
  parse_input keywords args_output = Accepted keywords output_path.
Proof.
  intros H. destruct (accepted_keywords _ _ _ _ H) as (Hlen & Hk & Hout).
  pose proof (split_ws_wordlike args_prompt) as Hws.
  assert (Hsplit : split_ws keywords = split_ws args_prompt)
    by (rewrite Hk; now apply split_ws_join).
  split; [exact Hws|]. split; [exact Hlen|]. split; [exact Hk|].
  split; [exact Hsplit|]. split; [|split].
  - rewrite Hk. apply join_solid.
    + apply Forall_forall. intros w Hw. apply wordlike_solid.
      now apply (proj1 (Forall_forall _ _) Hws).
    + destruct (split_ws args_prompt); [discriminate Hlen | discriminate].
  - rewrite Hk. now apply join_words_no_lf.
  - rewrite parse_input_words, Hsplit, Hlen. simpl. now rewrite <- Hk, Hout.
Qed.

Lemma keywords_normal_form_witness :
  let args_prompt := lit "  волна  корабль плыть приключение   сокровища " in
  let keywords := lit "волна корабль плыть приключение сокровища" in
  parse_input args_prompt None = Accepted keywords (lit "article.html") /\
  parse_input keywords None = Accepted keywords (lit "article.html").
Proof.
  intros args_prompt keywords.
  assert (H : parse_input args_prompt None
              = Accepted keywords (lit "article.html"))
    by (vm_compute; reflexivity).
  split; [exact H|].
  exact (proj2 (proj2 (proj2 (proj2 (proj2 (proj2
           (keywords_normal_form args_prompt None keywords
              (lit "article.html") H))))))).
Defined.

(* ================================================================== *)
(** * Properties of the prompt *)
(* ================================================================== *)

Section Prompt.

Lemma build_prompt_eq (keywords : str) :
  build_prompt keywords = PROMPT_HEAD ++ keywords ++ PROMPT_TAIL.
Proof. reflexivity. Qed.

Lemma prompt_head_first : PROMPT_HEAD = 1053 :: tl PROMPT_HEAD.
Proof. vm_compute. reflexivity. Qed.

Lemma literal_no_lf (s : str) :
  forallb (fun c => negb (c =? LF)) s = true -> ~ In LF s.
Proof.
  intros H Hin. pose proof (proj1 (forallb_forall _ _) H LF Hin) as E.
  discriminate E.
Qed.

Lemma prompt_head_no_lf : ~ In LF PROMPT_HEAD.
Proof. apply literal_no_lf. vm_compute. reflexivity. Qed.

Lemma prompt_tail_no_lf : ~ In LF PROMPT_TAIL.
Proof. apply literal_no_lf. vm_compute. reflexivity. Qed.

Lemma split_nl_single (s : str) : ~ In LF s -> split_nl s = [s].
Proof.
  induction s as [|c s IH]; intros H; [reflexivity|].
  simpl. destruct (N.eqb_spec c LF) as [-> | _].
  - exfalso. apply H. now left.
  - rewrite IH; [reflexivity|]. intros Hin. apply H. now right.
Qed.

Lemma head_line_not_marker (c : N) (t r : str) :
  isspace c = false -> (35 =? c) = false -> is_marker ((c :: t) ++ r) = false.
Proof.
  intros Hs Hh. rewrite is_marker_lstrip. cbn [app lstrip]. rewrite Hs.
  now rewrite hash_lit, startswith_single.
Qed.

(** The line that starts with the prompt is no marker line, whatever the
    keywords and whatever follows on the line. *)
Lemma prompt_line_not_marker (keywords c0 : str) :
  is_marker (build_prompt keywords ++ c0) = false.
Proof.
  rewrite build_prompt_eq, prompt_head_first, <- app_assoc.
  apply head_line_not_marker; reflexivity.
Qed.

Lemma app3_no_lf (a k b c0 : str) :
  ~ In LF a -> ~ In LF k -> ~ In LF b -> ~ In LF c0 ->
  ~ In LF ((a ++ k ++ b) ++ c0).
Proof.
  intros Ha Hk Hb Hc Hin.
  apply in_app_or in Hin as [Hin | Hin]; [|exact (Hc Hin)].
  apply in_app_or in Hin as [Hin | Hin]; [exact (Ha Hin)|].
  apply in_app_or in Hin as [Hin | Hin]; [exact (Hk Hin)|exact (Hb Hin)].
Qed.

Lemma prompt_line_no_lf (keywords c0 : str) :
  ~ In LF keywords -> ~ In LF c0 -> ~ In LF (build_prompt keywords ++ c0).
Proof.
  intros Hk Hc. rewrite build_prompt_eq.
  apply app3_no_lf;
    [exact prompt_head_no_lf | exact Hk | exact prompt_tail_no_lf | exact Hc].
Qed.

Lemma run_one_noise (x : str) :
  is_marker x = false -> run init_state [x] = init_state.
Proof.
  intros H. apply run_no_marker; [reflexivity|].
  intros y [<- | []]. exact H.
Qed.


End Prompt.

(** X10: the echoed prompt is dropped.  For keywords that [parse_input]
    accepted, when the generated text starts with the prompt, goes on to the
    end of that line with anything, and continues on the next lines, the
    parsed document is that of the next lines alone: the "#" signs inside
    the prompt never give a title or a heading. *)
Theorem echoed_prompt_dropped
    (args_prompt : str) (args_output : option str)
    (keywords : str) (output_path : path) (c0 c1 : str) :
  parse_input args_prompt args_output = Accepted keywords output_path ->
  ~ In LF c0 ->
  clean_and_parse_qwen_output (build_prompt keywords ++ c0 ++ LF :: c1) =
  clean_and_parse_qwen_output c1.
Proof.
  intros Hacc Hc0.
  destruct (accepted_keywords _ _ _ _ Hacc) as (_ & Hk & _).
  assert (Hklf : ~ In LF keywords)
    by (rewrite Hk; apply join_words_no_lf, split_ws_wordlike).
  rewrite app_assoc, !parse_lines, split_nl_lf, run_app.
  rewrite split_nl_single by now apply prompt_line_no_lf.
  now rewrite run_one_noise by apply prompt_line_not_marker.
Qed.

Lemma echoed_prompt_dropped_witness :
  let keywords := lit "волна корабль плыть приключение сокровища" in
  clean_and_parse_qwen_output
    (build_prompt keywords ++ lit " Ок." ++ LF :: raw_e2e) =
  clean_and_parse_qwen_output raw_e2e.
Proof.
  intros keywords.
  refine (echoed_prompt_dropped keywords None keywords (lit "article.html")
            (lit " Ок.") raw_e2e _ _).
  - vm_compute. reflexivity.
  - intros H. vm_compute in H.
    repeat (destruct H as [H | H]; [discriminate H|]). exact H.
Defined.

(* ================================================================== *)
(** * What the parser never returns *)
(* ================================================================== *)

Section Invariants.

Lemma split_nl_no_lf (s l : str) : In l (split_nl s) -> ~ In LF l.
Proof.
  revert l. induction s as [|c s IH]; intros l; simpl.
  - intros [<- | []] [].
  - destruct (N.eqb_spec c LF) as [-> | Hc].
    + intros [<- | Hl]; [intros [] | now apply IH].
    + pose proof (split_nl_not_nil s) as Hn.
      destruct (split_nl s) as [|l0 ls]; [contradiction|].
      intros [<- | Hl].
      * intros [E | Hin]; [congruence|]. apply (IH l0); [now left | exact Hin].
      * apply IH. now right.
Qed.

Lemma lstrip_incl (s : str) (c : N) : In c (lstrip s) -> In c s.
Proof.
  induction s as [|a s IH]; [trivial|]. simpl.
  destruct (isspace a); [intros H; right; now apply IH | trivial].
Qed.

Lemma strip_incl (s : str) (c : N) : In c (strip s) -> In c s.
Proof.
  unfold strip, rstrip. intros H. apply in_rev in H.
  apply lstrip_incl in H. apply in_rev in H. now apply lstrip_incl.
Qed.

Lemma skipn_incl (n : nat) (s : str) (c : N) : In c (skipn n s) -> In c s.
Proof.
  revert s. induction n as [|n IH]; intros s; [trivial|].
  destruct s as [|a s]; [trivial|]. simpl. intros H. right. now apply IH.
Qed.

Lemma header_of_no_lf (l : str) : ~ In LF l -> ~ In LF (header_of l).
Proof.
  intros H Hin. apply H. unfold header_of in Hin.
  now apply strip_incl, skipn_incl, strip_incl in Hin.
Qed.

Lemma blocks_clean (lines : list str) :
  (forall l, In l lines -> ~ In LF l) ->
  Forall plain_line (fst (blocks lines)) /\
  Forall clean_block (snd (blocks lines)).
Proof.
  induction lines as [|l lines IH]; intros Hlf; [split; constructor|].
  destruct IH as [IHb IHbs]; [intros x Hx; apply Hlf; now right|].
  simpl blocks. destruct (blocks lines) as [b bs]. simpl in IHb, IHbs.
  destruct (is_blank l); [now split|].
  destruct (is_marker l) eqn:Em.
  - split; [constructor|]. constructor; [|exact IHbs].
    split; [|exact IHb]. apply header_of_no_lf, Hlf. now left.
  - split; [|exact IHbs]. constructor; [|exact IHb].
    split; [|exact Em]. intros Hin. apply strip_incl in Hin.
    apply (Hlf l); [now left | exact Hin].
Qed.

Lemma join_plain (b : list str) :
  Forall solid b -> Forall plain_line b -> plain_line (join SPACE b).
Proof.
  intros Hs Hp. split.
  - intros Hin. destruct (join_chars b LF Hin) as [E | (w & Hw & Hc)];
      [discriminate E|].
    now apply (proj1 (proj1 (Forall_forall _ _) Hp w Hw)).
  - destruct b as [|x b]; [reflexivity|].
    inversion Hs as [|? ? [Hx _] _]; subst.
    inversion Hp as [|? ? [_ Hh] _]; subst.
    destruct x as [|c t]; [contradiction|].
    rewrite hash_lit in *. rewrite startswith_single in Hh.
    destruct b as [|y b]; [cbn [join]; now rewrite startswith_single|].
    change (join SPACE (((c :: t) :: y :: b)))
      with ((c :: t) ++ SPACE ++ join SPACE (y :: b)).
    cbn [app]. now rewrite startswith_single.
Qed.

Lemma title_of_nil (bs : list block) :
  title_of bs = [] -> after_title bs = [].
Proof.
  induction bs as [|[h b] bs IH]; [reflexivity|]. simpl.
  destruct (truthy h) eqn:Eh; [|exact IH].
  intros ->. discriminate Eh.
Qed.

Lemma title_of_no_lf (bs : list block) :
  Forall clean_block bs -> ~ In LF (title_of bs).
Proof.
  induction bs as [|[h b] bs IH]; intros H; [intros []|].
  inversion H as [|? ? [Hh _] Hrest]; subst. simpl in *.
  destruct (truthy h); [exact Hh | now apply IH].
Qed.

End Invariants.

(** X14: what the parser never returns.  A document with no title has no
    section and no conclusion.  No text of the document holds a line feed.
    No section heading passes the conclusion test, and no section body and
    no conclusion starts with "#". *)
Theorem parsed_document_invariants (raw_text : str) :
  exists d,
    clean_and_parse_qwen_output raw_text = Return d /\
    (title d = [] -> sections d = [] /\ conclusion d = []) /\
    ~ In LF (title d) /\
    Forall (fun s => is_conclusion_header (h2 s) = false /\
                     ~ In LF (h2 s) /\ ~ In LF (p s) /\
                     startswith (p s) (lit "#") = false)
           (sections d) /\
    ~ In LF (conclusion d) /\
    startswith (conclusion d) (lit "#") = false.
Proof.
  rewrite parse_joined. cbv zeta.
  set (bs := snd (blocks (split_nl raw_text))).
  assert (Htidy : Forall tidy_block bs) by apply blocks_tidy.
  assert (Hclean : Forall clean_block bs)
    by (apply blocks_clean; intros l Hl; now apply (split_nl_no_lf raw_text)).
  assert (Hafter : forall bl, In bl (after_title bs) ->
                              tidy_block bl /\ clean_block bl).
  { intros bl Hbl. apply after_title_incl in Hbl. split.
    - now apply (proj1 (Forall_forall _ _) Htidy).
    - now apply (proj1 (Forall_forall _ _) Hclean). }
  eexists. split; [reflexivity|]. cbn [title sections conclusion].
  split; [|split; [|split]].
  - intros Ht. now rewrite (title_of_nil bs Ht).
  - now apply title_of_no_lf.
  - apply Forall_forall. intros s Hs.
    apply in_flat_map in Hs as ([h b] & Hin & Hs).
    destruct (Hafter _ Hin) as [[_ Hsolid] [Hh Hplain]]. simpl in *.
    unfold joined_section_of in Hs.
    destruct (is_conclusion_header h) eqn:Ec; [destruct Hs|]. simpl in Hs.
    destruct (truthy h && truthy b); [|destruct Hs].
    destruct Hs as [<- | []]. simpl.
    destruct (join_plain b Hsolid Hplain) as [Hlf Hhash].
    now repeat split.
  - set (L := flat_map joined_conclusion_of (after_title bs)).
    destruct L as [|x L'] eqn:EL; [split; [intros [] | reflexivity]|].
    assert (Hin : In (last L []) L) by (apply last_in; rewrite EL; discriminate).
    rewrite <- EL. unfold L at 2 in Hin.
    apply in_flat_map in Hin as ([h b] & Hin & Hl).
    destruct (Hafter _ Hin) as [[_ Hsolid] [_ Hplain]]. simpl in *.
    unfold joined_conclusion_of in Hl.
    destruct (is_conclusion_header h && truthy b); [|destruct Hl].
    destruct Hl as [Hl | []]. rewrite <- Hl.
    exact (join_plain b Hsolid Hplain).
Qed.

(* ================================================================== *)
(** * Round trip through the layout the prompt asks for *)
(* ================================================================== *)

Section RoundTrip.

Lemma space_lit : SPACE = [32].
Proof. reflexivity. Qed.

Lemma vyvod_one_line : one_line VYVOD.
Proof.
  split; [split|].
  - intros E. apply (f_equal (@List.length N)) in E. vm_compute in E.
    discriminate E.
  - vm_compute. reflexivity.
  - apply literal_no_lf. vm_compute. reflexivity.
Qed.

Lemma vyvod_is_conclusion_header : is_conclusion_header VYVOD = true.
Proof. vm_compute. reflexivity. Qed.

Lemma marker_line_strip (h : str) : solid h -> strip (marker_line h) = marker_line h.
Proof.
  intros Hh. destruct (solid_last h Hh) as (u & z & Eh & Hz).
  unfold marker_line. rewrite hash_lit, space_lit. cbn [app].
  apply (edges_solid 35 z (32 :: h) (35 :: 32 :: u)); try reflexivity; try exact Hz.
  now rewrite Eh.
Qed.

Lemma marker_line_is_marker (h : str) : solid h -> is_marker (marker_line h) = true.
Proof.
  intros Hh. unfold is_marker. rewrite marker_line_strip by exact Hh.
  unfold marker_line. rewrite hash_lit. cbn [app].
  rewrite startswith_single. reflexivity.
Qed.

Lemma marker_line_header (h : str) : solid h -> header_of (marker_line h) = h.
Proof.
  intros Hh. unfold header_of. rewrite marker_line_strip by exact Hh.
  unfold marker_line. rewrite hash_lit, space_lit. cbn [app skipn].
  rewrite strip_cons_space by reflexivity. apply Hh.
Qed.

Lemma marker_line_no_lf (h : str) : ~ In LF h -> ~ In LF (marker_line h).
Proof.
  intros Hh Hin. unfold marker_line in Hin. rewrite hash_lit, space_lit in Hin.
  cbn [app] in Hin. destruct Hin as [E | [E | Hin]];
    [discriminate E | discriminate E | exact (Hh Hin)].
Qed.

Lemma solid_not_blank (l : str) : solid l -> is_blank l = false.
Proof.
  intros [Hne Hs]. unfold is_blank. rewrite Hs.
  destruct l; [contradiction | reflexivity].
Qed.

Lemma blocks_marker (h : str) (rest : list str) :
  solid h ->
  blocks (marker_line h :: rest) =
  ([], (h, fst (blocks rest)) :: snd (blocks rest)).
Proof.
  intros Hh. cbn [blocks]. destruct (blocks rest) as [b bs].
  rewrite (marker_not_blank _ (marker_line_is_marker h Hh)).
  rewrite marker_line_is_marker, marker_line_header by exact Hh.
  reflexivity.
Qed.

Lemma blocks_text (l : str) (rest : list str) :
  solid l -> startswith l HASH = false ->
  blocks (l :: rest) = (l :: fst (blocks rest), snd (blocks rest)).
Proof.
  intros Hl Hh. cbn [blocks]. destruct (blocks rest) as [b bs].
  rewrite solid_not_blank by exact Hl.
  unfold is_marker. rewrite (proj2 Hl), Hh. reflexivity.
Qed.

Lemma blocks_conclusion_lines (c : str) :
  c = [] \/ (one_line c /\ startswith c HASH = false) ->
  blocks (conclusion_lines c) =
  ([], if truthy c then [(VYVOD, [c])] else []).
Proof.
  intros [-> | [[Hc _] Hh]]; [reflexivity|].
  unfold conclusion_lines.
  assert (Ht : truthy c = true) by (apply truthy_true_iff, Hc).
  rewrite Ht. rewrite blocks_marker by apply vyvod_one_line.
  rewrite blocks_text by assumption. reflexivity.
Qed.

Lemma blocks_section_lines (secs : list section_dict) (tail : list str)
    (bs : list block) :
  Forall canonical_section secs ->
  blocks tail = ([], bs) ->
  blocks (flat_map section_lines secs ++ tail) =
  ([], map (fun s => (h2 s, [p s])) secs ++ bs).
Proof.
  intros Hsecs Htail. induction secs as [|s secs IH]; [exact Htail|].
  inversion Hsecs as [|? ? (Hh & _ & Hp & Hhash) Hrest]; subst.
  cbn [flat_map section_lines app map].
  rewrite blocks_marker by apply Hh.
  rewrite blocks_text by (apply Hp || exact Hhash).
  now rewrite (IH Hrest).
Qed.

Lemma canonical_sections_back (secs : list section_dict) (bs : list block) :
  Forall canonical_section secs ->
  flat_map joined_section_of (map (fun s => (h2 s, [p s])) secs ++ bs) =
  secs ++ flat_map joined_section_of bs.
Proof.
  intros Hsecs. induction secs as [|s secs IH]; [reflexivity|].
  inversion Hsecs as [|? ? ([[Hne _] _] & Hc & _ & _) Hrest]; subst.
  cbn [map app flat_map]. rewrite (IH Hrest).
  unfold joined_section_of at 1. rewrite Hc.
  apply truthy_true_iff in Hne. rewrite Hne. cbn [negb andb truthy join app].
  now destruct s.
Qed.

Lemma canonical_conclusions_none (secs : list section_dict) (bs : list block) :
  Forall canonical_section secs ->
  flat_map joined_conclusion_of (map (fun s => (h2 s, [p s])) secs ++ bs) =
  flat_map joined_conclusion_of bs.
Proof.
  intros Hsecs. induction secs as [|s secs IH]; [reflexivity|].
  inversion Hsecs as [|? ? (_ & Hc & _ & _) Hrest]; subst.
  cbn [map app flat_map]. rewrite (IH Hrest).
  unfold joined_conclusion_of at 1. now rewrite Hc.
Qed.

Lemma split_nl_join (ls : list str) :
  (forall l, In l ls -> ~ In LF l) -> ls <> [] ->
  split_nl (join NL ls) = ls.
Proof.
  induction ls as [|x ls IH]; intros Hlf Hne; [contradiction|].
  destruct ls as [|y ls].
  - cbn [join]. apply split_nl_single, Hlf. now left.
  - change (join NL (x :: y :: ls)) with (x ++ LF :: join NL (y :: ls)).
    rewrite split_nl_lf, split_nl_single by (apply Hlf; now left).
    rewrite IH; [reflexivity | | discriminate].
    intros l Hl. apply Hlf. now right.
Qed.

Lemma doc_lines_no_lf (d : parsed_dict) :
  canonical_doc d -> forall l, In l (doc_lines d) -> ~ In LF l.
Proof.
  intros ([_ Ht] & Hsecs & Hc) l Hl. unfold doc_lines in Hl.
  destruct Hl as [<- | Hl]; [now apply marker_line_no_lf|].
  apply in_app_or in Hl as [Hl | Hl].
  - apply in_flat_map in Hl as (s & Hs & Hl).
    destruct (proj1 (Forall_forall _ _) Hsecs s Hs) as ([_ Hh] & _ & [_ Hp] & _).
    destruct Hl as [<- | [<- | []]]; [now apply marker_line_no_lf | exact Hp].
  - unfold conclusion_lines in Hl.
    destruct (truthy (conclusion d)) eqn:E; [|destruct Hl].
    destruct Hc as [Hc | [[_ Hc] _]]; [rewrite Hc in E; discriminate E|].
    destruct Hl as [<- | [<- | []]]; [|exact Hc].
    apply marker_line_no_lf, vyvod_one_line.
Qed.

End RoundTrip.

(** X15: round trip.  A document in the layout the prompt asks for (a
    one-line title, one-line headings that do not pass the conclusion test,
    one-line bodies and conclusion that do not start with "#"), written as
    "# title", then "# heading" and body for each section, then "# Вывод"
    and the conclusion if there is one, parses back to itself. *)
Theorem canonical_text_round_trip (d : parsed_dict) :
  canonical_doc d ->
  clean_and_parse_qwen_output (doc_text d) = Return d.
Proof.
  intros Hd. pose proof (doc_lines_no_lf d Hd) as Hlf.
  destruct Hd as ([Ht Htlf] & Hsecs & Hc).
  rewrite parse_joined. cbv zeta. unfold doc_text.
  rewrite split_nl_join by (exact Hlf || discriminate).
  unfold doc_lines. rewrite blocks_marker by exact Ht.
  rewrite (blocks_section_lines (sections d) (conclusion_lines (conclusion d))
             (if truthy (conclusion d) then [(VYVOD, [conclusion d])] else []))
    by (exact Hsecs || now apply blocks_conclusion_lines).
  cbn [fst snd title_of after_title].
  destruct Ht as [Hne _]. apply truthy_true_iff in Hne. rewrite Hne.
  rewrite canonical_sections_back, canonical_conclusions_none by exact Hsecs.
  destruct (truthy (conclusion d)) eqn:Ec.
  - cbn [flat_map app]. unfold joined_section_of, joined_conclusion_of.
    rewrite vyvod_is_conclusion_header. cbn [negb andb truthy join last app].
    rewrite app_nil_r. now destruct d.
  - apply truthy_false_iff in Ec. cbn [flat_map last].
    rewrite app_nil_r. destruct d; simpl in *. now rewrite Ec.
Qed.

Lemma canonical_text_round_trip_witness :
  clean_and_parse_qwen_output (doc_text doc_label_inside) =
  Return doc_label_inside.
Proof.
  apply canonical_text_round_trip.
  assert (Hone : forall s : str,
            strip s = s -> truthy s = true ->
            forallb (fun c => negb (c =? LF)) s = true -> one_line s).
  { intros s Hs Ht Hlf. split; [split|].
    - now apply truthy_true_iff.
    - exact Hs.
    - now apply literal_no_lf. }
  split; [|split].
  - apply Hone; vm_compute; reflexivity.
  - constructor.
  - right. split; [apply Hone|]; vm_compute; reflexivity.
Defined.

(* ================================================================== *)
(** * The conclusion heading *)
(* ================================================================== *)

Section ConclusionHeading.

(** Lines that are no marker lines are taken in as the loop sees them. *)
Lemma run_body (body : list str) (st : loop_state) :
  (forall x, In x body -> is_marker x = false) ->
  run st body =
  take_lines st (filter (fun x => truthy x) (map strip body)).
Proof.
  revert st. induction body as [|x body IH]; intros st Hb.
  - simpl. now rewrite take_lines_nil.
  - rewrite run_cons. cbn [map filter].
    assert (Hx : is_marker x = false) by (apply Hb; now left).
    assert (Hrest : forall y, In y body -> is_marker y = false)
      by (intros y Hy; apply Hb; now right).
    destruct (truthy (strip x)) eqn:E.
    + rewrite loop_body_text
        by (unfold is_text, is_blank; now rewrite E, Hx).
      rewrite (IH _ Hrest). now rewrite take_lines_app.
    + rewrite loop_body_blank by (unfold is_blank; now rewrite E).
      now apply IH.
Qed.

Lemma blocks_fst_closed (post : list str) :
  match post with
  | [] => True
  | m :: _ => is_marker m = true
  end ->
  fst (blocks post) = [].
Proof.
  destruct post as [|m post]; [reflexivity|]. intros Hm.
  cbn [blocks]. destruct (blocks post) as [b bs].
  now rewrite (marker_not_blank m Hm), Hm.
Qed.

(** The flush of a block under the conclusion flag. *)
Lemma save_block_flag (d : parsed_dict) (h : str) (ls : list str) :
  truthy h = true ->
  save_block (mk_state d (Some h) ls true) =
  if truthy ls then mk_parsed (title d) (sections d) (body_text ls) else d.
Proof.
  intros Hh. unfold save_block, block_ready.
  cbn [current_h2 current_p_lines in_conclusion parsed h2_truthy].
  rewrite Hh. now destruct (truthy ls).
Qed.

(** Before the title is set the loop is still in its initial state. *)
Lemma untitled_is_init (lines : list str) (st : loop_state) :
  (truthy (title (parsed st)) = false -> st = init_state) ->
  truthy (title (parsed (run st lines))) = false ->
  run st lines = init_state.
Proof.
  revert st. induction lines as [|x lines IH]; intros st Hst Ht.
  - now apply Hst.
  - rewrite run_cons in Ht |- *. apply IH; [|exact Ht].
    intros Hx. destruct (truthy (title (parsed st))) eqn:E.
    + rewrite title_loop_body, E in Hx by exact E. discriminate.
    + rewrite (Hst eq_refl) in Hx |- *.
      destruct (line_cases x) as [H | [H | H]].
      * now apply loop_body_blank.
      * rewrite first_title_step in Hx |- * by assumption.
        cbn [titled_state parsed title] in Hx.
        apply truthy_false_iff in Hx. now rewrite Hx.
      * rewrite loop_body_text by assumption. reflexivity.
Qed.

Lemma conclusion_header_truthy (h : str) :
  is_conclusion_header h = true -> truthy h = true.
Proof. destruct h; [vm_compute; discriminate | reflexivity]. Qed.

End ConclusionHeading.

(** C5, as the specification states it, fails: a marker line that is not
    the first one and whose header text is "Вывод" does not route the text
    line after it into the conclusion when the first marker line left the
    title empty: it becomes the title, and the text line is dropped. *)
Lemma conclusion_heading_taken_as_title :
  split_nl raw_untitled_conclusion = [lit "#"; lit "# Вывод"; lit "Итог."] /\
  is_marker (lit "#") = true /\
  is_marker (lit "# Вывод") = true /\
  is_conclusion_header (header_of (lit "# Вывод")) = true /\
  is_text (lit "Итог.") = true /\
  clean_and_parse_qwen_output raw_untitled_conclusion =
    Return (mk_parsed (lit "Вывод") [] []) /\
  (forall d, clean_and_parse_qwen_output raw_untitled_conclusion = Return d ->
             conclusion d <> lit "Итог.").
Proof.
  repeat split; try (vm_compute; reflexivity).
  intros d. vm_compute. intros H. injection H as <-. discriminate.
Qed.

(** C5, amended: for every raw input, take a marker line whose header text
    in lower case starts with "вывод", the lines after it up to the next
    marker line or the end of the input, and the non-blank ones among these
    lines, stripped.  If the title was set before the line (it is not empty),
    the line sets the current heading to "Вывод" and raises the conclusion
    flag, the lines are collected under it, and the parser returns a document
    whose sections hold nothing of them and whose conclusion is these lines
    joined by single spaces, unless there are none of them or a later
    conclusion heading with text overwrites it.  If the title was still empty
    (every marker line before had an empty header text), the line becomes the
    title instead, no heading is set, and the lines after it are dropped.
    The test holds exactly when the first five letters of the header text are
    в, ы, в, о, д in either case. *)
Theorem conclusion_heading_routes_body
    (raw_text : str) (pre : list str) (l : str) (body post : list str) :
  split_nl raw_text = pre ++ l :: body ++ post ->
  is_marker l = true ->
  is_conclusion_header (header_of l) = true ->
  (forall x, In x body -> is_marker x = false) ->
  match post with
  | [] => True
  | m :: _ => is_marker m = true
  end ->
  let st := run init_state pre in
  let seen := filter (fun x => truthy x) (map strip body) in
  let bs := snd (blocks post) in
  (truthy (title (parsed st)) = true ->
   run init_state (pre ++ [l]) =
     mk_state (save_block st) (Some (lit "Вывод")) [] true /\
   run init_state (pre ++ l :: body) =
     mk_state (save_block st) (Some (lit "Вывод")) seen true /\
   clean_and_parse_qwen_output raw_text =
     Return (mk_parsed (title (parsed st))
               (sections (save_block st) ++ flat_map section_of bs)
               (last (flat_map conclusion_of bs)
                     (if truthy seen then body_text seen
                      else conclusion (save_block st))))) /\
  (truthy (title (parsed st)) = false ->
   run init_state (pre ++ [l]) = titled_state (header_of l) /\
   run init_state (pre ++ l :: body) = titled_state (header_of l) /\
   clean_and_parse_qwen_output raw_text =
     Return (mk_parsed (header_of l) (flat_map section_of bs)
                       (last (flat_map conclusion_of bs) []))) /\
  is_conclusion_header (lit "Вывод") = true /\
  is_conclusion_header (lit "ВЫВОД:") = true /\
  is_conclusion_header (lit "вывод по теме") = true /\
  (forall h, is_conclusion_header h = vyvod_prefix h).
Proof.
  intros Hsplit Hm Hc Hbody Hpost st seen bs.
  assert (Hinv : loop_inv st) by (apply loop_inv_run, loop_inv_init).
  assert (Hparse : clean_and_parse_qwen_output raw_text =
            Return (fold_left emit bs
                      (save_block (run init_state (pre ++ l :: body))))).
  { rewrite parse_lines, Hsplit.
    replace (pre ++ l :: body ++ post) with ((pre ++ l :: body) ++ post)
      by (now rewrite <- app_assoc).
    rewrite run_app, save_block_run by (apply loop_inv_run, loop_inv_init).
    now rewrite (blocks_fst_closed post Hpost), take_lines_nil. }
  assert (Hcut : pre ++ l :: body = (pre ++ [l]) ++ body)
    by (now rewrite <- app_assoc).
  split; [|split].
  - intros Ht.
    assert (H1 : run init_state (pre ++ [l]) =
                 mk_state (save_block st) (Some (lit "Вывод")) [] true).
    { rewrite run_app. fold st. change (run st [l]) with (loop_body st l).
      rewrite loop_body_marker by assumption.
      unfold marker_step. cbv zeta.
      rewrite (p_lines_reset st Hinv), title_save_block, Ht, Hc.
      reflexivity. }
    assert (H2 : run init_state (pre ++ l :: body) =
                 mk_state (save_block st) (Some (lit "Вывод")) seen true).
    { rewrite Hcut, run_app, H1, run_body by assumption. reflexivity. }
    split; [exact H1|]. split; [exact H2|].
    rewrite Hparse, H2.
    rewrite (save_block_flag (save_block st) (lit "Вывод") seen)
      by (vm_compute; reflexivity).
    assert (Ht' : truthy (title (save_block st)) = true)
      by (now rewrite title_save_block).
    clearbody seen. destruct seen as [|x seen]; cbn [truthy].
    + rewrite fold_emit_titled by exact Ht'.
      now rewrite title_save_block.
    + rewrite fold_emit_titled by exact Ht'.
      cbn [title sections conclusion]. now rewrite title_save_block.
  - intros Ht.
    assert (Hst : st = init_state)
      by (apply untitled_is_init; [reflexivity | exact Ht]).
    assert (H1 : run init_state (pre ++ [l]) = titled_state (header_of l)).
    { rewrite run_app. fold st. rewrite Hst.
      change (run init_state [l]) with (loop_body init_state l).
      now apply first_title_step. }
    assert (H2 : run init_state (pre ++ l :: body) =
                 titled_state (header_of l)).
    { rewrite Hcut, run_app, H1, run_body by assumption. reflexivity. }
    split; [exact H1|]. split; [exact H2|].
    rewrite Hparse, H2.
    change (save_block (titled_state (header_of l)))
      with (mk_parsed (header_of l) [] []).
    rewrite fold_emit_titled
      by (cbn [title]; now apply conclusion_header_truthy).
    reflexivity.
  - split; [|split; [|split]];
      [vm_compute; reflexivity .. | exact is_conclusion_header_prefix].
Qed.

Lemma conclusion_heading_routes_body_witness :
  clean_and_parse_qwen_output raw_conclusion_block =
  Return (mk_parsed (lit "Море")
            [mk_section (lit "Волны") (lit "Волны шумят.");
             mk_section (lit "Берег") (lit "Песок тёплый.")]
            (lit "Море спокойно. Пора домой.")).
Proof.
  refine (eq_trans
    (proj2 (proj2
       (proj1
          (conclusion_heading_routes_body raw_conclusion_block
             [lit "# Море"; lit "# Волны"; lit "Волны шумят."]
             (lit "# ВЫВОД:")
             [lit "  Море спокойно. "; []; lit "Пора домой."]
             [lit "# Берег"; lit "Песок тёплый."]
             _ _ _ _ _) _))) _).
  - vm_compute. reflexivity.
  - vm_compute. reflexivity.
  - vm_compute. reflexivity.
  - intros x [<- | [<- | [<- | []]]]; vm_compute; reflexivity.
  - vm_compute. reflexivity.
  - vm_compute. reflexivity.
  - vm_compute. reflexivity.
Defined.

(* ================================================================== *)
(** * Rendering and main on the operating system *)
(* ================================================================== *)

Section System.

Variable env : os_env.

(** Text mode keeps a text of scalar values one. *)
Lemma valid_os_text (text : str) :
  valid_text (os_linesep env) = true ->
  valid_text text = true ->
  valid_text (os_text env text) = true.
Proof.
  intros Hsep. unfold os_text.
  induction text as [|c text IH]; [reflexivity|].
  unfold valid_text at 1. cbn [forallb]. intros H.
  apply andb_true_iff in H as [Hc Ht].
  cbn [flat_map]. rewrite valid_text_app, (IH Ht), andb_true_r.
  destruct (c =? LF); [exact Hsep|].
  unfold valid_text. cbn [forallb]. now rewrite Hc.
Qed.

Lemma write_text_ok (fs : filesystem) (f : path) (text : str)
    (data : list N) :
  open_fails env fs f = false ->
  utf8_encode (os_text env text) = Some data ->
  store_fails env fs f data = None ->
  write_text env fs f text = Written (write_bytes fs (resolve env f) data).
Proof. intros Ho Hd Hs. unfold write_text. now rewrite Ho, Hd, Hs. Qed.

Lemma write_text_written (fs : filesystem) (f : path) (text : str)
    (fs' : filesystem) :
  write_text env fs f text = Written fs' ->
  open_fails env fs f = false /\
  exists data,
    utf8_encode (os_text env text) = Some data /\
    store_fails env fs f data = None /\
    fs' = write_bytes fs (resolve env f) data.
Proof.
  unfold write_text.
  destruct (open_fails env fs f); [discriminate|].
  destruct (utf8_encode (os_text env text)) as [data|]; [|discriminate].
  destruct (store_fails env fs f data) eqn:Hs; [discriminate|].
  intros H. injection H as <-. split; [reflexivity|].
  exists data. split; [reflexivity|]. split; [exact Hs | reflexivity].
Qed.

(** The three ways the write raises, and what each leaves in the file. *)
Lemma write_text_error (fs : filesystem) (f : path) (text : str)
    (e : exn) (fs' : filesystem) :
  write_text env fs f text = WriteError e fs' ->
  (e = OSError /\ open_fails env fs f = true /\ fs' = fs) \/
  (e = UnicodeEncodeError /\ open_fails env fs f = false /\
   utf8_encode (os_text env text) = None /\
   fs' = write_bytes fs (resolve env f) []) \/
  (e = OSError /\ open_fails env fs f = false /\
   exists data part,
     utf8_encode (os_text env text) = Some data /\
     store_fails env fs f data = Some part /\
     fs' = write_bytes fs (resolve env f) part).
Proof.
  unfold write_text.
  destruct (open_fails env fs f).
  - intros H. injection H as <- <-. left. repeat split.
  - destruct (utf8_encode (os_text env text)) as [data|].
    + destruct (store_fails env fs f data) as [part|] eqn:Hs; [|discriminate].
      intros H. injection H as <- <-. right. right.
      split; [reflexivity|]. split; [reflexivity|].
      exists data, part. split; [reflexivity|]. split; [exact Hs | reflexivity].
    + intros H. injection H as <- <-. right. left. repeat split.
Qed.

Lemma generate_html_ok (d : parsed_dict) (f : path) (fs : filesystem)
    (cs : list str) (data : list N) :
  open_fails env fs f = false ->
  utf8_encode (os_text env (html_text d)) = Some data ->
  store_fails env fs f data = None ->
  print_fails env (NL ++ lit "HTML сохранён: " ++ path_repr env f) = None ->
  generate_html env d f (mk_world fs cs) =
  Done tt (mk_world (write_bytes fs (resolve env f) data)
             (cs ++ [NL ++ lit "HTML сохранён: " ++ path_repr env f])).
Proof.
  intros Ho Hd Hs Hp. unfold generate_html. cbn [files console].
  rewrite (write_text_ok fs f (html_text d) data Ho Hd Hs).
  unfold console_print. rewrite Hp. reflexivity.
Qed.

Lemma generate_html_done (d : parsed_dict) (f : path) (w w' : world) :
  generate_html env d f w = Done tt w' ->
  exists data,
    utf8_encode (os_text env (html_text d)) = Some data /\
    open_fails env (files w) f = false /\
    store_fails env (files w) f data = None /\
    print_fails env (NL ++ lit "HTML сохранён: " ++ path_repr env f) = None /\
    w' = mk_world (write_bytes (files w) (resolve env f) data)
           (console w ++ [NL ++ lit "HTML сохранён: " ++ path_repr env f]).
Proof.
  unfold generate_html.
  destruct (write_text env (files w) f (html_text d)) as [fs | e fs] eqn:Hw;
    [|discriminate].
  apply write_text_written in Hw as (Ho & data & Hd & Hs & ->).
  unfold console_print. cbn [files console].
  destruct (print_fails env
              (NL ++ lit "HTML сохранён: " ++ path_repr env f)) eqn:Hp;
    [discriminate|].
  intros H. injection H as <-.
  exists data. split; [exact Hd|]. split; [exact Ho|]. split; [exact Hs|].
  split; reflexivity.
Qed.

Lemma write_bytes_same (fs : filesystem) (f : file_name) (data : list N) :
  write_bytes fs f data f = Some data.
Proof. unfold write_bytes. now rewrite file_eqb_refl. Qed.



End System.

(** C9: rendering is a function of the document, whatever the destination.
    The text assembled is the page head with the title, one heading line and
    one paragraph line per section in order, the conclusion block when the
    conclusion is not empty, and the page end: nothing of the output path,
    of the files present or of the lines printed before goes into it.  A
    rendering that completes has stored the UTF-8 bytes of this text, and
    nothing else, in the file its path names, over whatever the file held.
    So two renderings of one document that complete, to two destinations,
    from whatever states, leave the same bytes in both files; and so do two
    renderings one after the other.  Whether a rendering completes is for
    the operating system to decide: it does when the text has a UTF-8 form
    (it has for a document of scalar values), the file can be opened and
    written, and the console takes the confirmation line. *)
Theorem rendering_deterministic (env : os_env) (d : parsed_dict) :
  html_text d =
    html_shell (title d) ++ flat_map render_section (sections d)
    ++ render_conclusion (conclusion d) ++ html_tail /\
  (forall f w w',
     generate_html env d f w = Done tt w' ->
     exists data,
       utf8_encode (os_text env (html_text d)) = Some data /\
       w' = mk_world (write_bytes (files w) (resolve env f) data)
              (console w ++
               [NL ++ lit "HTML сохранён: " ++ path_repr env f])) /\
  (forall f1 f2 wA wB wA' wB',
     generate_html env d f1 wA = Done tt wA' ->
     generate_html env d f2 wB = Done tt wB' ->
     exists data,
       utf8_encode (os_text env (html_text d)) = Some data /\
       files wA' (resolve env f1) = Some data /\
       files wB' (resolve env f2) = Some data) /\
  (forall f1 f2 w w1 w2,
     generate_html env d f1 w = Done tt w1 ->
     generate_html env d f2 w1 = Done tt w2 ->
     exists data,
       utf8_encode (os_text env (html_text d)) = Some data /\
       files w2 (resolve env f1) = Some data /\
       files w2 (resolve env f2) = Some data) /\
  (forall f w,
     valid_doc d = true ->
     valid_text (os_linesep env) = true ->
     open_fails env (files w) f = false ->
     (forall data, store_fails env (files w) f data = None) ->
     print_fails env (NL ++ lit "HTML сохранён: " ++ path_repr env f) = None ->
     exists w', generate_html env d f w = Done tt w').
Proof.
  split; [apply html_layout|].
  split; [|split; [|split]].
  - intros f w w' H.
    destruct (generate_html_done env d f w w' H) as (data & Hd & _ & _ & _ & E).
    exists data. split; [exact Hd | exact E].
  - intros f1 f2 wA wB wA' wB' HA HB.
    destruct (generate_html_done env d f1 wA wA' HA)
      as (data & Hd & _ & _ & _ & ->).
    destruct (generate_html_done env d f2 wB wB' HB)
      as (data' & Hd' & _ & _ & _ & ->).
    assert (E : data' = data) by congruence. subst data'.
    exists data. cbn [files]. split; [exact Hd|].
    split; apply write_bytes_same.
  - intros f1 f2 w w1 w2 H1 H2.
    destruct (generate_html_done env d f1 w w1 H1)
      as (data & Hd & _ & _ & _ & ->).
    destruct (generate_html_done env d f2 _ w2 H2)
      as (data' & Hd' & _ & _ & _ & ->).
    assert (E : data' = data) by congruence. subst data'.
    exists data. cbn [files]. split; [exact Hd|].
    split; [|apply write_bytes_same].
    unfold write_bytes at 1.
    destruct (file_eqb (resolve env f2) (resolve env f1)); [reflexivity|].
    apply write_bytes_same.
  - intros f [fs cs] Hv Hsep Ho Hs Hp. cbn [files] in Ho, Hs.
    destruct (utf8_encode_valid _
                (valid_os_text env _ Hsep (valid_html_text d Hv)))
      as [data Hd].
    eexists. exact (generate_html_ok env d f fs cs data Ho Hd (Hs data) Hp).
Qed.

Lemma rendering_deterministic_witness :
  let wA := world_after (generate_html willing_env doc_e2e
                           (lit "article.html") (mk_world no_files [])) in
  let wB := world_after (generate_html willing_env doc_e2e
                           (lit "copy.html")
                           (mk_world (write_bytes no_files (lit "copy.html")
                                        [104; 105])
                                     [lit "готово"])) in
  (exists w',
     generate_html willing_env doc_e2e (lit "article.html")
       (mk_world no_files []) = Done tt w') /\
  (exists data,
     utf8_encode (os_text willing_env (html_text doc_e2e)) = Some data /\
     files wA (resolve willing_env (lit "article.html")) = Some data /\
     files wB (resolve willing_env (lit "copy.html")) = Some data).
Proof.
  intros wA wB. split.
  - refine (proj2 (proj2 (proj2 (proj2
              (rendering_deterministic willing_env doc_e2e))))
              (lit "article.html") (mk_world no_files []) _ _ _ _ _).
    + vm_compute. reflexivity.
    + vm_compute. reflexivity.
    + reflexivity.
    + intros data. reflexivity.
    + reflexivity.
  - refine (proj1 (proj2 (proj2
              (rendering_deterministic willing_env doc_e2e)))
              (lit "article.html") (lit "copy.html")
              (mk_world no_files [])
              (mk_world (write_bytes no_files (lit "copy.html") [104; 105])
                        [lit "готово"])
              wA wB _ _).
    + vm_compute. reflexivity.
    + vm_compute. reflexivity.
Defined.

(** X6: on well-formed text the text of the page always has a UTF-8 form.
    When every code point of the raw text and of the line separator is a
    Unicode scalar value, the parser returns a document whose HTML text
    encodes, so the write never raises [UnicodeEncodeError]; whether it
    completes is then for the operating system alone: when the file can be
    opened and written and the console takes the confirmation line, the
    file the output path names holds the UTF-8 bytes of the HTML text. *)
Theorem valid_text_always_renders (env : os_env) (raw_text : str) :
  valid_text raw_text = true ->
  valid_text (os_linesep env) = true ->
  exists d data,
    clean_and_parse_qwen_output raw_text = Return d /\
    utf8_encode (os_text env (html_text d)) = Some data /\
    (forall fs f fs',
       write_text env fs f (html_text d) <>
       WriteError UnicodeEncodeError fs') /\
    (forall f fs cs,
       open_fails env fs f = false ->
       store_fails env fs f data = None ->
       print_fails env (NL ++ lit "HTML сохранён: " ++ path_repr env f)
         = None ->
       generate_html env d f (mk_world fs cs) =
       Done tt (mk_world (write_bytes fs (resolve env f) data)
                  (cs ++ [NL ++ lit "HTML сохранён: " ++ path_repr env f]))).
Proof.
  intros Hraw Hsep. destruct (valid_parsed raw_text Hraw) as (d & Hd & Hv).
  destruct (utf8_encode_valid _
              (valid_os_text env _ Hsep (valid_html_text d Hv)))
    as [data Hdata].
  exists d, data. split; [exact Hd|]. split; [exact Hdata|]. split.
  - intros fs f fs' H.
    destruct (write_text_error env fs f _ _ _ H)
      as [(E & _) | [(_ & _ & Hn & _) | (E & _)]]; try discriminate E.
    rewrite Hdata in Hn. discriminate Hn.
  - intros f fs cs Ho Hs Hp.
    exact (generate_html_ok env d f fs cs data Ho Hdata Hs Hp).
Qed.

Lemma valid_text_always_renders_witness :
  exists d data,
    clean_and_parse_qwen_output raw_e2e = Return d /\
    utf8_encode (os_text willing_env (html_text d)) = Some data /\
    generate_html willing_env d (lit "article.html") (mk_world no_files []) =
    Done tt (mk_world
               (write_bytes no_files (resolve willing_env (lit "article.html"))
                  data)
               ([] ++ [NL ++ lit "HTML сохранён: "
                          ++ path_repr willing_env (lit "article.html")])).
Proof.
  destruct (valid_text_always_renders willing_env raw_e2e)
    as (d & data & Hd & Hdata & _ & Hrun).
  - vm_compute. reflexivity.
  - vm_compute. reflexivity.
  - exists d, data. split; [exact Hd|]. split; [exact Hdata|].
    apply Hrun; reflexivity.
Defined.

(** X11: with a prompt that has not exactly five words, [main] does nothing
    but print the message of the [ValueError]: it does not call the text
    generation and writes no file.  When the console takes the message,
    [main] returns with this one line printed; when the console refuses it,
    the exception of [print] leaves [main] and the world is as before. *)
Theorem main_rejects_bad_prompt
    (pipe : str -> str) (env : os_env)
    (args_prompt : str) (args_output : option str) (w : world) :
  List.length (split_ws args_prompt) <> 5%nat ->
  let message := value_error_message (List.length (split_ws args_prompt)) in
  main pipe env args_prompt args_output w = console_print env w message /\
  (print_fails env message = None ->
   main pipe env args_prompt args_output w =
   Done tt (mk_world (files w) (console w ++ [message]))) /\
  (forall e, print_fails env message = Some e ->
   main pipe env args_prompt args_output w = Failed (exn_of e) w) /\
  files (world_after (main pipe env args_prompt args_output w)) = files w.
Proof.
  intros H message.
  assert (E : main pipe env args_prompt args_output w =
              console_print env w message).
  { unfold main. rewrite parse_input_words.
    apply Nat.eqb_neq in H. rewrite H. reflexivity. }
  rewrite E. unfold console_print.
  split; [reflexivity|]. split; [|split].
  - intros Hp. rewrite Hp. reflexivity.
  - intros e Hp. rewrite Hp. reflexivity.
  - destruct (print_fails env message); reflexivity.
Qed.

Lemma main_rejects_bad_prompt_witness :
  main (fun _ => lit "# Море") willing_env (lit "волна корабль") None
       (mk_world no_files []) =
  Done tt (mk_world (files (mk_world no_files []))
             (console (mk_world no_files []) ++
              [value_error_message
                 (List.length (split_ws (lit "волна корабль")))])).
Proof.
  refine (proj1 (proj2
            (main_rejects_bad_prompt (fun _ => lit "# Море") willing_env
               (lit "волна корабль") None (mk_world no_files []) _)) _).
  - vm_compute. discriminate.
  - reflexivity.
Defined.




